(** * dmt-smtp: the [EmailSender] of [dmt_smtp/smtp.py]

    A shallow embedding of the class [EmailSender]: the two connection legs
    run by the constructor, [close_connection], [send] and the sent-folder
    heuristic [_find_sent_folder], followed by the properties of its
    specification.

    Conventions of the embedding.
    - A Python [str] is a list of Unicode code points, [bytes] a list of
      [Byte.byte].
    - Every call into [smtplib], [imaplib], the [Email] builder and the
      logger is an [event]; a method run yields the events it caused, in
      order.  What the outside world answers (a fault, a mailbox listing,
      the state of a socket) is read from a [World], a function of the
      events seen so far; theorems hold for every [World].
    - Exceptions are values of [exn]; every class modelled derives from
      Python's [Exception] ([KeyboardInterrupt] and [SystemExit], which do
      not, are outside the model).  The calls on the logger return
      normally.
    - [str.lower] is the run time's Unicode lower-casing; the development
      is parametric in it, and [ascii_lower] is its restriction to ASCII
      text, used in the examples.
    - Line numbers refer to [dmt_smtp/smtp.py].  The port is the integer
      that [int(port)] yields on line 25.
    - The texts of the errors of the UTF-8 codec, which name the byte or
      character at fault and its position, are taken from the [World]. *)

From Stdlib Require Import List NArith ZArith Bool Ascii String Lia.
From Stdlib Require Import Strings.Byte.
Import ListNotations.

Set Implicit Arguments.

(* ------------------------------------------------------------------ *)
(** ** Python strings and bytes *)

Module Py.

Definition char := N.
Definition str := list char.
Definition bytes := list byte.

(** A string literal of the source, read as ASCII text. *)
Definition lit (s : string) : str :=
  List.map N_of_ascii (list_ascii_of_string s).

(** The double quote, which the literals of the source contain. *)
Definition dq : str := [34%N].

(** [s.startswith(p)] *)
Fixpoint starts_with (p s : str) : bool :=
  match p, s with
  | [], _ => true
  | _ :: _, [] => false
  | a :: p', b :: s' => N.eqb a b && starts_with p' s'
  end.

(** [sub in s] *)
Fixpoint contains (sub s : str) : bool :=
  starts_with sub s ||
  match s with
  | [] => false
  | _ :: s' => contains sub s'
  end.

(** [s.replace(old, new)]: the occurrences of [old] are found from the left
    and do not overlap; [skip] counts the characters of a found occurrence
    still to be passed over. *)
Fixpoint replace_from (old new : str) (skip : nat) (s : str) : str :=
  match s with
  | [] => match old with [] => new | _ :: _ => [] end
  | c :: s' =>
      match skip with
      | S k => replace_from old new k s'
      | O =>
          if starts_with old s
          then match old with
               | [] => new ++ c :: replace_from old new 0 s'
               | _ :: old' => new ++ replace_from old new (List.length old') s'
               end
          else c :: replace_from old new 0 s'
      end
  end.

Definition replace (old new s : str) : str := replace_from old new 0 s.

(** [s.split(sep)] for a non-empty [sep]: [cur] holds, reversed, the
    segment being read. *)
Fixpoint split_from (sep : str) (skip : nat) (cur : str) (s : str) : list str :=
  match s with
  | [] => [List.rev cur]
  | c :: s' =>
      match skip with
      | S k => split_from sep k cur s'
      | O =>
          if starts_with sep s
          then List.rev cur :: split_from sep (List.length sep - 1) [] s'
          else split_from sep 0 (c :: cur) s'
      end
  end.

Definition split (sep s : str) : list str := split_from sep 0 [] s.

(** [l[-1]] on a list that [split] returned (never empty). *)
Definition last_segment (l : list str) : str := List.last l [].

(** Truth value of an optional string: [None] and [''] are false. *)
Definition truthy (o : option str) : bool :=
  match o with
  | Some (_ :: _) => true
  | _ => false
  end.

(** *** UTF-8, as [bytes.decode()] and [str.encode('utf8')] use it *)

Definition cont (b : N) : bool := (128 <=? b)%N && (b <=? 191)%N.
Definition low6 (b : N) : N := (b - 128)%N.

(** Strict decoding: no overlong forms, no surrogates, nothing above
    U+10FFFF.  [None] is Python's [UnicodeDecodeError]. *)
Fixpoint utf8_decode_N (bs : list N) : option str :=
  match bs with
  | [] => Some []
  | b0 :: r0 =>
      if (b0 <? 128)%N then option_map (cons b0) (utf8_decode_N r0)
      else match r0 with
      | [] => None
      | b1 :: r1 =>
          if (194 <=? b0)%N && (b0 <=? 223)%N then
            if cont b1
            then option_map (cons ((b0 - 192) * 64 + low6 b1)%N) (utf8_decode_N r1)
            else None
          else match r1 with
          | [] => None
          | b2 :: r2 =>
              if (224 <=? b0)%N && (b0 <=? 239)%N then
                if cont b1 && cont b2
                   && negb ((b0 =? 224)%N && (b1 <? 160)%N)
                   && negb ((b0 =? 237)%N && (160 <=? b1)%N)
                then option_map
                       (cons ((b0 - 224) * 4096 + low6 b1 * 64 + low6 b2)%N)
                       (utf8_decode_N r2)
                else None
              else match r2 with
              | [] => None
              | b3 :: r3 =>
                  if (240 <=? b0)%N && (b0 <=? 244)%N
                     && cont b1 && cont b2 && cont b3
                     && negb ((b0 =? 240)%N && (b1 <? 144)%N)
                     && negb ((b0 =? 244)%N && (144 <=? b1)%N)
                  then option_map
                         (cons ((b0 - 240) * 262144 + low6 b1 * 4096
                                + low6 b2 * 64 + low6 b3)%N)
                         (utf8_decode_N r3)
                  else None
              end
          end
      end
  end.

Definition decode (b : bytes) : option str :=
  utf8_decode_N (List.map Byte.to_N b).

Definition byte_of (n : N) : byte :=
  match Byte.of_N n with Some b => b | None => x00 end.

(** The bytes of one code point; [None] for a surrogate or a value that is
    no code point ([UnicodeEncodeError]). *)
Definition utf8_encode_char (c : char) : option bytes :=
  if (c <? 128)%N then Some [byte_of c]
  else if (c <? 2048)%N then
    Some [byte_of (192 + c / 64); byte_of (128 + c mod 64)]
  else if (c <? 65536)%N then
    if (55296 <=? c)%N && (c <=? 57343)%N then None
    else Some [byte_of (224 + c / 4096); byte_of (128 + (c / 64) mod 64);
               byte_of (128 + c mod 64)]
  else if (c <? 1114112)%N then
    Some [byte_of (240 + c / 262144); byte_of (128 + (c / 4096) mod 64);
          byte_of (128 + (c / 64) mod 64); byte_of (128 + c mod 64)]
  else None.

Fixpoint encode (s : str) : option bytes :=
  match s with
  | [] => Some []
  | c :: s' =>
      match utf8_encode_char c, encode s' with
      | Some b, Some bs => Some (b ++ bs)
      | _, _ => None
      end
  end.

(** [str.lower] on ASCII text. *)
Definition ascii_lower_char (c : char) : char :=
  if (65 <=? c)%N && (c <=? 90)%N then (c + 32)%N else c.

Definition ascii_lower (s : str) : str := List.map ascii_lower_char s.

End Py.

Import Py.

(* ------------------------------------------------------------------ *)
(** ** Exceptions, events and the outside world *)

(** The exception classes the code tells apart or raises itself.
    [SMTPException] stands for [smtplib.SMTPException] and its subclasses,
    [OtherException] for any further subclass of [Exception]
    ([OSError], [imaplib.IMAP4.error], ...). *)
Inductive exn_class : Type :=
| ValueError
| UnicodeDecodeError
| UnicodeEncodeError
| AttributeError
| ConnectionError
| SMTPException
| OtherException.

(** [msg] is [str(e)]; [ExnFrom] is an exception raised by
    [raise ... from cause]. *)
Inductive exn : Type :=
| Exn (cls : exn_class) (msg : str)
| ExnFrom (cls : exn_class) (msg : str) (cause : exn).

Definition class_of (e : exn) : exn_class :=
  match e with Exn c _ | ExnFrom c _ _ => c end.
Definition str_of (e : exn) : str :=
  match e with Exn _ m | ExnFrom _ m _ => m end.

Definition exn_class_eqb (a b : exn_class) : bool :=
  match a, b with
  | ValueError, ValueError
  | UnicodeDecodeError, UnicodeDecodeError
  | UnicodeEncodeError, UnicodeEncodeError
  | AttributeError, AttributeError
  | ConnectionError, ConnectionError
  | SMTPException, SMTPException
  | OtherException, OtherException => true
  | _, _ => false
  end.

(** [isinstance(e, c)]: the two Unicode errors derive from [ValueError]. *)
Definition isinstance (e : exn) (c : exn_class) : bool :=
  match c, class_of e with
  | ValueError, (UnicodeDecodeError | UnicodeEncodeError) => true
  | c, d => exn_class_eqb c d
  end.

Inductive outcome (A : Type) : Type :=
| Return (a : A)
| Raise (e : exn).
Arguments Return {A} a.
Arguments Raise {A} e.

Inductive level : Type := INFO | WARNING | EXCEPTION.

(** One constructor per call that leaves the class. *)
Inductive event : Type :=
| smtplib_SMTP (host : str) (port : Z)
| smtplib_SMTP_SSL (host : str) (port : Z)
| starttls
| smtp_login (user password : str)
| imaplib_IMAP4_SSL (host : str) (port : Z)
| imap_login (user password : str)
| sendmail (from_addr : str) (to_addrs : list str) (msg : str)
| imap_list
| imap_append (mailbox : option str) (flags date_time : str) (message : bytes)
| quit
| logout
| logger (lvl : level) (msg : str).

Inductive SMTP_handle : Type :=
| SMTP (host : str) (port : Z)
| SMTP_SSL (host : str) (port : Z).

Inductive IMAP_handle : Type :=
| IMAP4_SSL (host : str) (port : Z).

(** An item of the list that [imap.list()] returns: a line of the response
    as [bytes]; [None], the one item of the list when nothing was listed; or
    a pair, for a line that the server sent with a literal. *)
Inductive entry : Type :=
| entry_bytes (line : bytes)
| entry_none
| entry_tuple (head literal : bytes).

(** Modelled from the spec: the [Email] builder of [dmt_smtp/email.py] is
    not part of the sources at hand.  The attributes are those [send] reads;
    [recipients] is the expanded recipient list (to and cc), [msg] the
    message ready to transmit. *)
Record Email : Type := {
  recipients : list str;
  msg : str;
  from_email : str;
  subject : str;
  body : str;
  html_body : option str;
  to_email : str;
  cc_emails : option str;
  signature_path : option str;
  file_path : option str
}.

(** The arguments of [Email(logger, login, subject, body, to_email,
    cc_emails, file_path, signature_path)], the logger left out. *)
Record Email_args : Type := {
  arg_login : str;
  arg_subject : str;
  arg_body : str;
  arg_to_email : str;
  arg_cc_emails : option str;
  arg_file_path : option str;
  arg_signature_path : option str
}.

(** Modelled from the spec: the Send Result record, [SMTPResponse] of
    [dmt_smtp/models.py], is not part of the sources at hand.  Its fields are
    the spec's, in the order in which [send] passes them. *)
Record SMTPResponse : Type := {
  success : bool;
  sender : str;
  resp_subject : str;
  resp_body : str;
  resp_html_body : option str;
  recipient : str;
  cc_list : option str;
  resp_signature_path : option str;
  attachment_path : option str;
  error_message : option str;
  error_code : option Z
}.

(** [SMTPResponse(ok, email.from_email, email.subject, email.body,
    email.html_body, email.to_email, email.cc_emails, email.signature_path,
    email.file_path, error, code)], lines 129 and 134; the last two
    arguments are absent on line 129. *)
Definition SMTPResponse_new (ok : bool) (email : Email)
    (error : option str) (code : option Z) : SMTPResponse :=
  {| success := ok;
     sender := from_email email;
     resp_subject := subject email;
     resp_body := body email;
     resp_html_body := html_body email;
     recipient := to_email email;
     cc_list := cc_emails email;
     resp_signature_path := signature_path email;
     attachment_path := file_path email;
     error_message := error;
     error_code := code |}.

(** What the environment answers, given the events so far. *)
Record World : Type := {
  (** the exception the call raises, [None] when it returns *)
  raises : list event -> event -> option exn;
  (** the pair [imap.list()] returns *)
  list_response : list event -> str * list entry;
  (** truth value of [server.sock] *)
  sock : list event -> bool;
  (** [imaplib.Time2Internaldate(time.time())] *)
  internaldate : list event -> str;
  (** the [Email] builder *)
  build_email : list event -> Email_args -> outcome Email;
  (** [str(e)] for the [UnicodeDecodeError] of [b.decode()] *)
  decode_error_text : bytes -> str;
  (** [str(e)] for the [UnicodeEncodeError] of [s.encode('utf8')] *)
  encode_error_text : str -> str
}.

(** The attributes of an [EmailSender] the methods read or write. *)
Record EmailSender : Type := {
  url : str;
  port : Z;
  login : str;
  password : str;
  self_signature_path : option str;
  server : option SMTP_handle;
  imap : option IMAP_handle
}.

Definition set_server (v : option SMTP_handle) (self : EmailSender) : EmailSender :=
  {| url := url self; port := port self; login := login self;
     password := password self; self_signature_path := self_signature_path self;
     server := v; imap := imap self |}.

Definition set_imap (v : option IMAP_handle) (self : EmailSender) : EmailSender :=
  {| url := url self; port := port self; login := login self;
     password := password self; self_signature_path := self_signature_path self;
     server := server self; imap := v |}.

(* ------------------------------------------------------------------ *)
(** ** The method monad

    A method runs on the object [self] and the history of events; it yields
    the events it caused, the object as it left it, and its outcome. *)

Definition M (A : Type) : Type :=
  EmailSender -> list event -> list event * EmailSender * outcome A.

Definition ret {A} (a : A) : M A := fun self _ => ([], self, Return a).

Definition raise {A} (e : exn) : M A := fun self _ => ([], self, Raise e).

Definition bind {A B} (m : M A) (f : A -> M B) : M B :=
  fun self h =>
    match m self h with
    | (n1, self1, Return a) =>
        let '(n2, self2, r) := f a self1 (h ++ n1) in (n1 ++ n2, self2, r)
    | (n1, self1, Raise e) => (n1, self1, Raise e)
    end.

(** [try: m  except Exception as e: handler e] *)
Definition try_except {A} (m : M A) (handler : exn -> M A) : M A :=
  fun self h =>
    match m self h with
    | (n1, self1, Raise e) =>
        let '(n2, self2, r) := handler e self1 (h ++ n1) in (n1 ++ n2, self2, r)
    | r => r
    end.

(** [try: m  finally: fin]: [fin] runs on every path, and the outcome of
    [m] stands unless [fin] raises. *)
Definition try_finally {A} (m : M A) (fin : M unit) : M A :=
  fun self h =>
    let '(n1, self1, r) := m self h in
    match fin self1 (h ++ n1) with
    | (n2, self2, Return _) => (n1 ++ n2, self2, r)
    | (n2, self2, Raise e) => (n1 ++ n2, self2, Raise e)
    end.

Definition get : M EmailSender := fun self _ => ([], self, Return self).

Definition modify (f : EmailSender -> EmailSender) : M unit :=
  fun self _ => ([], f self, Return tt).

Declare Scope py_scope.
Delimit Scope py_scope with py.
Notation "x <- m ;; k" := (bind m (fun x => k))
  (at level 61, m at next level, right associativity) : py_scope.
Notation "m ;; k" := (bind m (fun _ => k))
  (at level 61, right associativity) : py_scope.
Open Scope py_scope.

(* ------------------------------------------------------------------ *)
(** ** The class [EmailSender] *)

Section EmailSender.

Variable w : World.

(** [str.lower] of the run time. *)
Variable lower : str -> str.

(** A call that leaves the class: recorded, then answered by the world. *)
Definition call (ev : event) : M unit :=
  fun self h =>
    ([ev], self,
     match raises w h ev with
     | Some e => Raise e
     | None => Return tt
     end).

Definition log (lvl : level) (m : str) : M unit :=
  fun self _ => ([logger lvl m], self, Return tt).

(** Reading from the world without calling out. *)
Definition ask {A} (f : World -> list event -> A) : M A :=
  fun self h => ([], self, Return (f w h)).

(** [obj.name] where [obj] may be [None]. *)
Definition getattr {H} (obj : option H) (name : string) : M H :=
  match obj with
  | Some o => ret o
  | None =>
      raise (Exn AttributeError
               (lit "'NoneType' object has no attribute '" ++ lit name ++ lit "'"))
  end.

(** [_connect_imap], lines 34-45. *)
Definition _connect_imap : M IMAP_handle :=
  try_except
    (self <- get ;;
     let imap_url := replace (lit "smtp") (lit "imap") (url self) in
     call (imaplib_IMAP4_SSL imap_url 993) ;;
     let imap := IMAP4_SSL imap_url 993 in
     call (imap_login (login self) (password self)) ;;
     log INFO (lit "Conectado ao servidor IMAP com sucesso.") ;;
     ret imap)
    (fun e =>
       raise (ExnFrom ConnectionError
                (lit "Falha ao conectar ao servidor IMAP: " ++ str_of e) e)).

(** [_connect_smtp], lines 47-68. *)
Definition _connect_smtp : M SMTP_handle :=
  try_except
    (self <- get ;;
     server <-
       (if (port self =? 587)%Z then
          call (smtplib_SMTP (url self) (port self)) ;;
          call starttls ;;
          ret (SMTP (url self) (port self))
        else if (port self =? 465)%Z then
          call (smtplib_SMTP_SSL (url self) (port self)) ;;
          ret (SMTP_SSL (url self) (port self))
        else
          raise (Exn ValueError
                   (lit "Porta SMTP inv" ++ [225%N] ++ lit "lida. Use 587 ou 465."))) ;;
     call (smtp_login (login self) (password self)) ;;
     log INFO (lit "Conectado ao servidor SMTP com sucesso.") ;;
     ret server)
    (fun e =>
       if isinstance e SMTPException || isinstance e ValueError then
         raise (ExnFrom ConnectionError
                  (lit "Falha ao conectar ao servidor SMTP: " ++ str_of e) e)
       else
         raise (ExnFrom ConnectionError
                  (lit "Erro inesperado ao conectar ao servidor SMTP: " ++ str_of e) e)).

(** [__init__], lines 22-31, from line 29 on: [self] arrives with the
    arguments stored and no handle yet. *)
Definition __init__ : M unit :=
  server <- _connect_smtp ;;
  modify (set_server (Some server)) ;;
  imap <- _connect_imap ;;
  modify (set_imap (Some imap)) ;;
  self <- get ;;
  log INFO (lit "Usando o email: " ++ login self).

(** [EmailSender(url, port, login, password, signature_path=...)]: the
    caller gets the object when [__init__] returns, and the exception
    alone when it raises. *)
Definition EmailSender_new (url : str) (port : Z) (login password : str)
    (signature_path : option str) (h : list event)
  : list event * outcome EmailSender :=
  let self0 := {| url := url; port := port; login := login;
                  password := password; self_signature_path := signature_path;
                  server := None; imap := None |} in
  match __init__ self0 h with
  | (n, self, Return _) => (n, Return self)
  | (n, _, Raise e) => (n, Raise e)
  end.

(** [close_connection], lines 70-93. *)
Definition close_connection : M unit :=
  (self <- get ;;
   match server self with
   | Some _ =>
       try_finally
         (try_except
            (live <- ask sock ;;
             if live then
               call quit ;;
               log INFO (lit "Conex" ++ [227%N] ++ lit "o SMTP encerrada.")
             else
               log WARNING
                 (lit "Tentativa de fechar conex" ++ [227%N] ++ lit "o SMTP j"
                    ++ [225%N] ++ lit " desconectada."))
            (fun e =>
               log EXCEPTION
                 (lit "Erro ao encerrar conex" ++ [227%N] ++ lit "o SMTP: "
                    ++ str_of e)))
         (modify (set_server None))
   | None => ret tt
   end) ;;
  self <- get ;;
  match imap self with
  | Some _ =>
      try_finally
        (try_except
           (call logout ;;
            log INFO (lit "Conex" ++ [227%N] ++ lit "o IMAP encerrada."))
           (fun e =>
              log EXCEPTION
                (lit "Erro ao encerrar conex" ++ [227%N] ++ lit "o IMAP: "
                   ++ str_of e)))
        (modify (set_imap None))
  | None => ret tt
  end.

(** The table [email_folders], in the order of its definition. *)
Definition email_folders : list (str * str) :=
  [ (lit "gmail", dq ++ lit "[Gmail]/Sent Mail" ++ dq);
    (lit "yahoo", lit "Sent");
    (lit "outlook", dq ++ lit "[Outlook]/Sent" ++ dq);
    (lit "hotmail", dq ++ lit "[Hotmail]/Sent" ++ dq);
    (lit "aol", lit "Sent");
    (lit "icloud", lit "Sent Messages") ].

(** The inner loop, lines 156-159: the folder of the first provider whose
    keyword occurs in the lower-cased name; [sent_folder] is left as it was
    when there is none. *)
Fixpoint provider_loop (items : list (str * str)) (lowered : str)
    (sent_folder : option str) : option str :=
  match items with
  | [] => sent_folder
  | (provider, folder) :: items' =>
      if contains provider lowered then Some folder
      else provider_loop items' lowered sent_folder
  end.

(** The delimiter of line 161: space, quote, dot, quote, space. *)
Definition delimiter : str := lit " " ++ dq ++ lit "." ++ dq ++ lit " ".

(** [mailbox.decode()], line 154: only [bytes] have the method, and
    they must be valid UTF-8. *)
Definition entry_decode (mailbox : entry) : outcome str :=
  match mailbox with
  | entry_bytes line =>
      match decode line with
      | Some name => Return name
      | None => Raise (Exn UnicodeDecodeError (decode_error_text w line))
      end
  | entry_none =>
      Raise (Exn AttributeError
               (lit "'NoneType' object has no attribute 'decode'"))
  | entry_tuple _ _ =>
      Raise (Exn AttributeError
               (lit "'tuple' object has no attribute 'decode'"))
  end.

(** The outer loop, lines 153-162, on the listing still to be read. *)
Fixpoint mailbox_loop (mailboxes : list entry) (sent_folder : option str)
  : outcome (option str) :=
  match mailboxes with
  | [] => Return sent_folder
  | mailbox :: rest =>
      match entry_decode mailbox with
      | Raise e => Raise e
      | Return mailbox_name =>
          if contains (lit "sent") (lower mailbox_name) then
            let sent_folder :=
              provider_loop email_folders (lower mailbox_name) sent_folder in
            let sent_folder :=
              if negb (truthy sent_folder)
              then Some (last_segment (split delimiter mailbox_name))
              else sent_folder in
            Return sent_folder
          else mailbox_loop rest sent_folder
      end
  end.

Definition lift {A} (r : outcome A) : M A :=
  fun self _ => ([], self, r).

(** [_find_sent_folder], lines 136-163. *)
Definition _find_sent_folder : M (option str) :=
  self <- get ;;
  imap <- getattr (imap self) "list" ;;
  call imap_list ;;
  response <- ask list_response ;;
  let '(status, mailboxes) := response in
  lift (mailbox_loop mailboxes None).

(** [f"{sent_folder}"] *)
Definition format_opt (o : option str) : str :=
  match o with
  | Some s => s
  | None => lit "None"
  end.

(** The [try] block of [send], lines 118-129. *)
Definition send_try (email : Email) (subject : str) : M SMTPResponse :=
  self <- get ;;
  log INFO (lit "Enviando e-mail " ++ dq ++ subject ++ dq) ;;
  server <- getattr (server self) "sendmail" ;;
  call (sendmail (login self) (recipients email) (msg email)) ;;
  log INFO (lit "E-mail enviado com sucesso") ;;
  sent_folder <- _find_sent_folder ;;
  log INFO (lit "Salvando e-mail em " ++ format_opt sent_folder) ;;
  imap <- getattr (imap self) "append" ;;
  date_time <- ask internaldate ;;
  message <-
    match encode (msg email) with
    | Some b => ret b
    | None =>
        raise (Exn UnicodeEncodeError (encode_error_text w (msg email)))
    end ;;
  call (imap_append sent_folder [] date_time message) ;;
  log INFO (lit "E-mail salvo com sucesso") ;;
  ret (SMTPResponse_new true email None None).

(** The text of line 132. *)
Definition send_error (to_email : str) (e : exn) : str :=
  lit "Erro ao enviar e-mail para " ++ to_email ++ lit ": " ++ str_of e.

(** The arguments [send] hands to the builder on line 116. *)
Definition builder_args (self : EmailSender) (subject body to_email : str)
    (cc_emails file_path : option str) : Email_args :=
  {| arg_login := login self; arg_subject := subject;
     arg_body := body; arg_to_email := to_email;
     arg_cc_emails := cc_emails; arg_file_path := file_path;
     arg_signature_path := self_signature_path self |}.

(** [send], lines 97-134. *)
Definition send (subject body to_email : str) (cc_emails file_path : option str)
  : M SMTPResponse :=
  self <- get ;;
  built <- ask (fun w h =>
             build_email w h
               (builder_args self subject body to_email cc_emails file_path)) ;;
  email <- lift built ;;
  try_except
    (send_try email subject)
    (fun e =>
       let error := send_error to_email e in
       log EXCEPTION error ;;
       ret (SMTPResponse_new false email (Some error) (Some 500%Z))).

End EmailSender.

(* ------------------------------------------------------------------ *)
(** ** Notions the specification speaks of *)

(** The spec's wording of the IMAP host: only the first occurrence of
    [old] gives way to [new] (Python's [s.replace(old, new, 1)]). *)
Fixpoint replace_first (old new s : str) : str :=
  match s with
  | [] => []
  | c :: s' =>
      if starts_with old s then new ++ skipn (List.length old) s
      else c :: replace_first old new s'
  end.

(** [replaced_all old new s s']: reading [s] from the left, every
    occurrence of [old] met has given way to [new], and every other
    character is kept. *)
Inductive replaced_all (old new : str) : str -> str -> Prop :=
| replaced_nil : replaced_all old new [] []
| replaced_keep c s s' :
    starts_with old (c :: s) = false ->
    replaced_all old new s s' ->
    replaced_all old new (c :: s) (c :: s')
| replaced_hit s s' :
    replaced_all old new s s' ->
    replaced_all old new (old ++ s) (new ++ s').

(** [first_sent lower mailboxes r]: [r] is the decoded text of the first
    entry of the listing that contains "sent" once lower-cased, [None]
    when the listing has no such entry; the entries up to that one (all of
    them for [None]) are [bytes] that decode. *)
Inductive first_sent (lower : str -> str) : list entry -> option str -> Prop :=
| first_sent_none : first_sent lower [] None
| first_sent_skip mailbox name rest r :
    decode mailbox = Some name ->
    contains (lit "sent") (lower name) = false ->
    first_sent lower rest r ->
    first_sent lower (entry_bytes mailbox :: rest) r
| first_sent_here mailbox name rest :
    decode mailbox = Some name ->
    contains (lit "sent") (lower name) = true ->
    first_sent lower (entry_bytes mailbox :: rest) (Some name).

(** The folder the spec assigns to an entry: the table's folder for the
    first provider, in table order, whose keyword occurs in the entry
    case-insensitively, else the last segment of the entry. *)
Definition folder_for (lower : str -> str) (name : str) : str :=
  match List.find (fun item => contains (fst item) (lower name)) email_folders with
  | Some (_, folder) => folder
  | None => last_segment (split delimiter name)
  end.

Definition is_sendmail (ev : event) : bool :=
  match ev with sendmail _ _ _ => true | _ => false end.

Definition is_append (ev : event) : bool :=
  match ev with imap_append _ _ _ _ => true | _ => false end.

Definition is_logger (ev : event) : bool :=
  match ev with logger _ _ => true | _ => false end.

(** The calls on the SMTP transport made while connecting. *)
Definition is_smtp_transport (ev : event) : bool :=
  match ev with
  | smtplib_SMTP _ _ | smtplib_SMTP_SSL _ _ | starttls | smtp_login _ _ => true
  | _ => false
  end.

(** The calls that go to a server: everything but the logger. *)
Definition is_protocol (ev : event) : bool := negb (is_logger ev).

Definition count (p : event -> bool) (events : list event) : nat :=
  List.length (List.filter p events).

(** [returned w h events]: each call among [events], made in this order
    from the history [h] on, returned. *)
Fixpoint returned (w : World) (h : list event) (events : list event) : Prop :=
  match events with
  | [] => True
  | ev :: rest =>
      (is_protocol ev = true -> raises w h ev = None)
      /\ returned w (h ++ [ev]) rest
  end.

(** [l] is an initial part of [full]. *)
Definition prefix_of (l full : list event) : Prop :=
  exists rest, full = l ++ rest.

(** Further classes of events. *)
Definition is_quit (ev : event) : bool :=
  match ev with quit => true | _ => false end.

Definition is_logout (ev : event) : bool :=
  match ev with logout => true | _ => false end.

Definition is_list (ev : event) : bool :=
  match ev with imap_list => true | _ => false end.

(** The calls of the IMAP leg of the constructor. *)
Definition is_imap_connect (ev : event) : bool :=
  match ev with
  | imaplib_IMAP4_SSL _ _ | imap_login _ _ => true
  | _ => false
  end.

(** The two words of line 39, as characters. *)
Definition smtp_word : str := [115; 109; 116; 112]%N.
Definition imap_word : str := [105; 109; 97; 112]%N.

(** [l] is a final part of [s]. *)
Definition suffix_of (l s : str) : Prop := exists pre, s = pre ++ l.

(** Bytes below 128 only, as RFC 3501 has the lines of a LIST response. *)
Definition ascii_only (b : bytes) : Prop :=
  Forall (fun x => (Byte.to_N x < 128)%N) b.

(** The entry is [bytes] that decode to a text without "sent" once
    lower-cased. *)
Definition not_a_sent_entry (lower : str -> str) (mailbox : entry) : Prop :=
  exists line name,
    mailbox = entry_bytes line
    /\ decode line = Some name
    /\ contains (lit "sent") (lower name) = false.

(** The entry is [bytes], all below 128. *)
Definition ascii_entry (mailbox : entry) : Prop :=
  exists line, mailbox = entry_bytes line /\ ascii_only line.

(** The calls of the SMTP leg for a port, in the order of lines 53-61. *)
Definition smtp_leg_calls (url : str) (port : Z) (login password : str)
  : list event :=
  if (port =? 587)%Z
  then [smtplib_SMTP url port; starttls; smtp_login login password]
  else [smtplib_SMTP_SSL url port; smtp_login login password].

(** The calls of the IMAP leg, in the order of lines 39-41. *)
Definition imap_leg_calls (url login password : str) : list event :=
  [imaplib_IMAP4_SSL (replace (lit "smtp") (lit "imap") url) 993;
   imap_login login password].

(** The events of a construction in which every call returns. *)
Definition construction_events (url : str) (port : Z) (login password : str)
  : list event :=
  smtp_leg_calls url port login password
  ++ [logger INFO (lit "Conectado ao servidor SMTP com sucesso.")]
  ++ imap_leg_calls url login password
  ++ [logger INFO (lit "Conectado ao servidor IMAP com sucesso.");
      logger INFO (lit "Usando o email: " ++ login)].

(* ------------------------------------------------------------------ *)
(** ** A concrete world, for running the model *)

Module Sample.

Definition bytes_lit (s : string) : bytes := list_byte_of_string s.

Definition fault : exn := Exn OtherException (lit "connection reset").

Definition email_of (a : Email_args) : Email :=
  {| recipients := [arg_to_email a];
     msg := lit "Subject: " ++ arg_subject a ++ [10%N; 10%N] ++ arg_body a;
     from_email := arg_login a;
     subject := arg_subject a;
     body := arg_body a;
     html_body := None;
     to_email := arg_to_email a;
     cc_emails := arg_cc_emails a;
     signature_path := arg_signature_path a;
     file_path := arg_file_path a |}.

(** The text of the [UnicodeDecodeError] for the two byte strings that are
    not UTF-8 in the runs below. *)
Definition decode_text (b : bytes) : str :=
  match b with
  | [xff] =>
      lit "'utf-8' codec can't decode byte 0xff in position 0: "
        ++ lit "invalid start byte"
  | [xc3] =>
      lit "'utf-8' codec can't decode byte 0xc3 in position 0: "
        ++ lit "unexpected end of data"
  | _ => lit "'utf-8' codec can't decode byte"
  end.

(** No run below meets a message that cannot be encoded. *)
Definition encode_text (s : str) : str :=
  lit "'utf-8' codec can't encode character".

(** A world in which the calls selected by [faulty] raise [fault], the
    listing is [items], the SMTP socket is live when [live] holds, and the
    builder works when [builds] holds. *)
Definition world_of (faulty : event -> bool) (items : list entry)
    (live builds : bool) : World :=
  {| raises := fun _ ev => if faulty ev then Some fault else None;
     list_response := fun _ => (lit "OK", items);
     sock := fun _ => live;
     internaldate := fun _ => dq ++ lit "03-Nov-2026 10:00:00 +0000" ++ dq;
     build_email := fun _ a =>
       if builds then Return (email_of a)
       else Raise (Exn OtherException (lit "No such file or directory"));
     decode_error_text := decode_text;
     encode_error_text := encode_text |}.

(** The same for a listing of lines. *)
Definition world (faulty : event -> bool) (boxes : list bytes)
    (live builds : bool) : World :=
  world_of faulty (List.map entry_bytes boxes) live builds.

Definition gmail_boxes : list bytes :=
  [bytes_lit "INBOX"; bytes_lit "[Gmail]/Sent Mail"; bytes_lit "[Gmail]/Trash"].

Definition calm : World := world (fun _ => false) gmail_boxes true true.

Definition host : str := lit "smtp.example.com".
Definition user : str := lit "me@example.com".
Definition secret : str := lit "hunter2".
Definition dest : str := lit "you@example.org".

Definition connected : EmailSender :=
  {| url := host; port := 587; login := user; password := secret;
     self_signature_path := None;
     server := Some (SMTP host 587);
     imap := Some (IMAP4_SSL (lit "imap.example.com") 993) |}.

End Sample.

(* ------------------------------------------------------------------ *)
(** ** Strings *)

Section StringFacts.

Lemma starts_with_app (p s : str) : starts_with p (p ++ s) = true.
Proof.
  induction p as [|a p IH]; simpl; [reflexivity|].
  now rewrite N.eqb_refl, IH.
Qed.

Lemma starts_with_split (p s : str) :
  starts_with p s = true -> s = p ++ skipn (List.length p) s.
Proof.
  revert s; induction p as [|a p IH]; intros s H; simpl in *; [reflexivity|].
  destruct s as [|b s]; [discriminate|].
  apply andb_true_iff in H as [Hab Hps].
  apply N.eqb_eq in Hab; subst b.
  simpl. f_equal. now apply IH.
Qed.

Lemma replace_from_skip (old new l s : str) :
  replace_from old new (List.length l) (l ++ s) = replace_from old new 0 s.
Proof.
  induction l as [|a l IH]; simpl; [reflexivity|exact IH].
Qed.

(** One step of [replace] at an occurrence of a non-empty [old]. *)
Lemma replace_hit (o : char) (old' new s : str) :
  replace (o :: old') new ((o :: old') ++ s) = new ++ replace (o :: old') new s.
Proof.
  unfold replace.
  change ((o :: old') ++ s) with (o :: (old' ++ s)).
  cbn [replace_from].
  change (o :: old' ++ s) with ((o :: old') ++ s).
  rewrite starts_with_app.
  now rewrite replace_from_skip.
Qed.

Lemma replace_keep (old new : str) (c : char) (s : str) :
  starts_with old (c :: s) = false ->
  replace old new (c :: s) = c :: replace old new s.
Proof.
  intros H. unfold replace. cbn [replace_from]. now rewrite H.
Qed.

Lemma replace_replaced_all (o : char) (old' new s : str) :
  replaced_all (o :: old') new s (replace (o :: old') new s).
Proof.
  remember (List.length s) as n eqn:Hn.
  revert s Hn.
  induction n as [n IH] using lt_wf_ind; intros s Hn.
  destruct s as [|c s].
  - apply replaced_nil.
  - destruct (starts_with (o :: old') (c :: s)) eqn:Hs.
    + apply starts_with_split in Hs.
      rewrite Hs, replace_hit.
      apply replaced_hit.
      apply (IH (List.length (skipn (List.length (o :: old')) (c :: s)))); [|reflexivity].
      subst n. simpl. rewrite length_skipn. lia.
    + rewrite replace_keep by exact Hs.
      apply replaced_keep; [exact Hs|].
      apply (IH (List.length s)); [subst n; simpl; lia | reflexivity].
Qed.

End StringFacts.

(* ------------------------------------------------------------------ *)
(** ** The sent-folder heuristic *)

Section SentFolder.

Variable w : World.
Variable lower : str -> str.

Lemma provider_loop_find (items : list (str * str)) (lowered : str) :
  provider_loop items lowered None
  = option_map snd (List.find (fun item => contains (fst item) lowered) items).
Proof.
  induction items as [|[provider folder] items IH]; simpl; [reflexivity|].
  destruct (contains provider lowered); [reflexivity|exact IH].
Qed.

(** No folder of the table is the empty string, so a provider hit is never
    taken for a miss on line 160. *)
Lemma table_folder_truthy (lowered : str) :
  match List.find (fun item => contains (fst item) lowered) email_folders with
  | Some (_, folder) => truthy (Some folder) = true
  | None => True
  end.
Proof.
  unfold email_folders. cbn [List.find fst].
  repeat match goal with
         | |- context [if contains ?p lowered then _ else _] =>
             destruct (contains p lowered)
         end; try reflexivity; exact I.
Qed.

Lemma hit_folder (name : str) :
  (let sent_folder := provider_loop email_folders (lower name) None in
   if negb (truthy sent_folder)
   then Some (last_segment (split delimiter name))
   else sent_folder)
  = Some (folder_for lower name).
Proof.
  cbv zeta. rewrite provider_loop_find. unfold folder_for.
  pose proof (table_folder_truthy (lower name)) as T.
  destruct (List.find _ email_folders) as [[provider folder]|].
  - cbn [option_map snd]. now rewrite T.
  - reflexivity.
Qed.

Lemma mailbox_loop_first_sent (mailboxes : list entry) (r : option str) :
  first_sent lower mailboxes r ->
  mailbox_loop w lower mailboxes None
  = Return (option_map (folder_for lower) r).
Proof.
  induction 1 as [|mailbox name rest r Hd Hc _ IH|mailbox name rest Hd Hc];
    cbn [mailbox_loop entry_decode].
  - reflexivity.
  - now rewrite Hd, Hc.
  - rewrite Hd, Hc. f_equal. apply hit_folder.
Qed.

(** A listing of valid UTF-8 lines has a first "sent" entry or none. *)
Lemma first_sent_total (lines : list bytes) :
  (forall mailbox, In mailbox lines -> decode mailbox <> None) ->
  exists r, first_sent lower (List.map entry_bytes lines) r.
Proof.
  induction lines as [|mailbox rest IH]; intros Hd.
  - exists None. constructor.
  - cbn [List.map]. destruct (decode mailbox) as [name|] eqn:E.
    + destruct (contains (lit "sent") (lower name)) eqn:C.
      * exists (Some name). eapply first_sent_here; eassumption.
      * destruct IH as [r Hr]; [intros b Hb; apply Hd; now right|].
        exists r. eapply first_sent_skip; eassumption.
    + exfalso. apply (Hd mailbox); [now left|exact E].
Qed.

(** An entry that is not valid UTF-8, met before any entry with "sent",
    makes the loop raise. *)
Lemma mailbox_loop_undecodable (mailbox : bytes) (rest : list entry) :
  decode mailbox = None ->
  exists e, mailbox_loop w lower (entry_bytes mailbox :: rest) None = Raise e
            /\ class_of e = UnicodeDecodeError.
Proof.
  intros Hd. cbn [mailbox_loop entry_decode]. rewrite Hd.
  eexists; split; reflexivity.
Qed.

(** [_find_sent_folder] on a live IMAP handle whose [list] call returns. *)
Lemma find_sent_folder_run (self : EmailSender) (h : list event)
    (handle : IMAP_handle) (status : str) (mailboxes : list entry) :
  imap self = Some handle ->
  raises w h imap_list = None ->
  list_response w (h ++ [imap_list]) = (status, mailboxes) ->
  _find_sent_folder w lower self h
  = ([imap_list], self, mailbox_loop w lower mailboxes None).
Proof.
  intros Hi Hr Hl.
  unfold _find_sent_folder, bind, get, getattr, call, ask, lift, ret.
  rewrite Hi. cbn. rewrite !app_nil_r, Hr. cbn. rewrite Hl.
  reflexivity.
Qed.

End SentFolder.

(** A line that is not UTF-8 before the "Sent" line, and the listing
    [[None]] that [imaplib] returns when nothing is listed: in both cases
    [_find_sent_folder] raises on line 154, where the claim has it return
    the folder of the "Sent" line and null. *)
Lemma find_sent_folder_raises_on_bad_entry :
  (decode [xff] = None
   /\ first_sent ascii_lower [entry_bytes (Sample.bytes_lit "Sent")]
        (Some (lit "Sent"))
   /\ _find_sent_folder
        (Sample.world (fun _ => false) [[xff]; Sample.bytes_lit "Sent"]
           true true)
        ascii_lower Sample.connected []
      = ([imap_list], Sample.connected,
         Raise
           (Exn UnicodeDecodeError
              (lit "'utf-8' codec can't decode byte 0xff in position 0: "
                 ++ lit "invalid start byte"))))
  /\ _find_sent_folder
       (Sample.world_of (fun _ => false) [entry_none] true true)
       ascii_lower Sample.connected []
     = ([imap_list], Sample.connected,
        Raise
          (Exn AttributeError
             (lit "'NoneType' object has no attribute 'decode'"))).
Proof.
  split; [split; [reflexivity|split; [|reflexivity]]|reflexivity].
  eapply first_sent_here; reflexivity.
Qed.

(** C1, as the code has it.  Whatever the run time's lower-casing, on a
    live IMAP handle whose [list] call returns the listing [mailboxes]:
    when the entries up to the first one containing "sent"
    case-insensitively (all of them when there is none) are [bytes] that
    decode as UTF-8, and [r] is the decoded text of that entry ([None] when
    there is none), [_find_sent_folder] makes the one call [list] and
    returns, for [r = Some name], the table's folder of the first provider
    keyword (gmail, yahoo, outlook, hotmail, aol, icloud, in this order)
    occurring in the lower-cased [name], and otherwise the last segment of
    [name] split on the delimiter; for [r = None] it returns [None].  Every
    listing of lines that are valid UTF-8 has such an [r]. *)
Theorem find_sent_folder_first_sent_entry
    (w : World) (lower : str -> str) (self : EmailSender) (h : list event)
    (handle : IMAP_handle) (status : str) (mailboxes : list entry)
    (r : option str) :
  imap self = Some handle ->
  raises w h imap_list = None ->
  list_response w (h ++ [imap_list]) = (status, mailboxes) ->
  first_sent lower mailboxes r ->
  _find_sent_folder w lower self h
  = ([imap_list], self,
     Return
       match r with
       | None => None
       | Some name =>
           Some
             match List.find (fun item => contains (fst item) (lower name))
                     email_folders with
             | Some (_, folder) => folder
             | None => last_segment (split delimiter name)
             end
       end)
  /\ List.map fst email_folders
     = [lit "gmail"; lit "yahoo"; lit "outlook"; lit "hotmail"; lit "aol";
        lit "icloud"]
  /\ forall lines,
       (forall mailbox, In mailbox lines -> decode mailbox <> None) ->
       exists r', first_sent lower (List.map entry_bytes lines) r'.
Proof.
  intros Hi Hr Hl Hf. split; [|split; [reflexivity|apply first_sent_total]].
  rewrite (find_sent_folder_run w lower self h Hi Hr Hl).
  rewrite (mailbox_loop_first_sent w Hf).
  destruct r; reflexivity.
Qed.

Lemma find_sent_folder_first_sent_entry_witness :
  _find_sent_folder Sample.calm ascii_lower Sample.connected []
  = ([imap_list], Sample.connected,
     Return (Some (dq ++ lit "[Gmail]/Sent Mail" ++ dq))).
Proof.
  exact (proj1
    (@find_sent_folder_first_sent_entry Sample.calm ascii_lower
       Sample.connected [] (IMAP4_SSL (lit "imap.example.com") 993)
       (lit "OK") (List.map entry_bytes Sample.gmail_boxes)
       (Some (lit "[Gmail]/Sent Mail"))
       eq_refl eq_refl eq_refl
       (@first_sent_skip ascii_lower (Sample.bytes_lit "INBOX") (lit "INBOX")
          _ _ eq_refl eq_refl
          (@first_sent_here ascii_lower (Sample.bytes_lit "[Gmail]/Sent Mail")
             (lit "[Gmail]/Sent Mail") _ eq_refl eq_refl)))).
Defined.

(** [str.replace] on the host name of the spec: both occurrences go, where
    the spec's first-occurrence reading keeps the second. *)
Lemma imap_host_not_first_occurrence_only :
  fst (fst (_connect_imap Sample.calm
              {| url := lit "smtpsmtp.foo"; port := 587;
                 login := Sample.user; password := Sample.secret;
                 self_signature_path := None; server := None;
                 imap := None |} []))
  = [imaplib_IMAP4_SSL (lit "imapimap.foo") 993;
     imap_login Sample.user Sample.secret;
     logger INFO (lit "Conectado ao servidor IMAP com sucesso.")]
  /\ replace_first (lit "smtp") (lit "imap") (lit "smtpsmtp.foo")
     = lit "imapsmtp.foo"
  /\ lit "imapimap.foo" <> lit "imapsmtp.foo".
Proof.
  split; [reflexivity|]. split; [reflexivity|]. discriminate.
Qed.

(** C2, as the code has it.  The first call of the IMAP leg is
    [imaplib.IMAP4_SSL(host, 993)], where [host] is the SMTP host name with
    every occurrence of "smtp", met from the left, replaced by "imap"; the
    host name "smtpsmtp.foo" gives "imapimap.foo". *)
Theorem imap_host_replaces_every_occurrence
    (w : World) (self : EmailSender) (h : list event) :
  (exists rest,
     fst (fst (_connect_imap w self h))
     = imaplib_IMAP4_SSL (replace (lit "smtp") (lit "imap") (url self)) 993
       :: rest)
  /\ replaced_all (lit "smtp") (lit "imap") (url self)
       (replace (lit "smtp") (lit "imap") (url self))
  /\ replace (lit "smtp") (lit "imap") (lit "smtpsmtp.foo") = lit "imapimap.foo".
Proof.
  split; [|split].
  - unfold _connect_imap, try_except, bind, get, call, log, ret, raise.
    cbn.
    destruct (raises w (h ++ []) _); cbn; [eexists; reflexivity|].
    destruct (raises w _ _); cbn; eexists; reflexivity.
  - apply replace_replaced_all.
  - reflexivity.
Qed.

(* ------------------------------------------------------------------ *)
(** ** Construction *)

Arguments lit : simpl never.
Arguments replace : simpl never.
Arguments isinstance : simpl never.

Ltac norm_hist :=
  rewrite ?app_nil_r, <- ?app_assoc in *; cbn [app] in *.

(** Case analysis on every answer of the world that the goal waits for. *)
Ltac run_calls w :=
  repeat (match goal with
          | |- context [isinstance ?e ?c || isinstance ?e ?d] =>
              destruct (isinstance e c || isinstance e d)
          | |- context [raises w ?h ?ev] =>
              let E := fresh "E" in destruct (raises w h ev) eqn:E
          end; cbn).

Ltac unfold_new :=
  unfold EmailSender_new, __init__, _connect_smtp, _connect_imap,
    try_except, bind, get, modify, call, log, ret, raise;
  cbn [port url login password].

Lemma returned_split (w : World) (events : list event) :
  forall h a ev b,
    returned w h events ->
    events = a ++ ev :: b ->
    is_protocol ev = true ->
    raises w (h ++ a) ev = None.
Proof.
  induction events as [|x events IH]; intros h a ev b R E P.
  - destruct a; discriminate.
  - destruct a as [|y a]; cbn in E; injection E as -> ->.
    + rewrite app_nil_r. now apply R.
    + destruct R as [_ R].
      replace (h ++ y :: a) with ((h ++ [y]) ++ a)
        by now rewrite <- app_assoc.
      now apply (IH _ a ev b R).
Qed.




(** C8.  With port 587 the calls on the SMTP transport are, in this order,
    the plain connect, STARTTLS and the login: every construction makes an
    initial part of this sequence and a successful one makes all of it.
    With port 465 the sequence is the TLS-wrapped connect and the login,
    and STARTTLS is never called. *)
Theorem smtp_transport_order
    (w : World) (url login password : str) (signature_path : option str)
    (h : list event) :
  (let '(events, r) :=
     EmailSender_new w url 587 login password signature_path h in
   let full := [smtplib_SMTP url 587; starttls; smtp_login login password] in
   prefix_of (List.filter is_smtp_transport events) full
   /\ match r with
      | Return _ => List.filter is_smtp_transport events = full
      | Raise _ => True
      end)
  /\
  (let '(events, r) :=
     EmailSender_new w url 465 login password signature_path h in
   let full := [smtplib_SMTP_SSL url 465; smtp_login login password] in
   prefix_of (List.filter is_smtp_transport events) full
   /\ match r with
      | Return _ => List.filter is_smtp_transport events = full
      | Raise _ => True
      end
   /\ ~ In starttls events).
Proof.
  split.
  - unfold_new. cbn. run_calls w;
      (split; [eexists; reflexivity | try exact I; try reflexivity]).
  - unfold_new. cbn. run_calls w;
      (split; [eexists; reflexivity |
               split; [try exact I; try reflexivity |
                       cbn; intuition discriminate]]).
Qed.

Lemma smtp_transport_order_witness :
  List.filter is_smtp_transport
    (fst (EmailSender_new Sample.calm Sample.host 587 Sample.user
            Sample.secret None []))
  = [smtplib_SMTP Sample.host 587; starttls;
     smtp_login Sample.user Sample.secret]
  /\ List.filter is_smtp_transport
       (fst (EmailSender_new Sample.calm Sample.host 465 Sample.user
               Sample.secret None []))
     = [smtplib_SMTP_SSL Sample.host 465;
        smtp_login Sample.user Sample.secret].
Proof.
  pose proof (@smtp_transport_order Sample.calm Sample.host Sample.user
                Sample.secret None []) as [[_ H587] [_ [H465 _]]].
  split; [exact H587 | exact H465].
Defined.

(** A world in which the SMTP connect fails: the constructor makes this
    one call and raises; no call of the IMAP leg is made. *)
Lemma construction_skips_imap_when_smtp_fails :
  EmailSender_new
    (Sample.world is_smtp_transport Sample.gmail_boxes true true)
    Sample.host 587 Sample.user Sample.secret None []
  = ([smtplib_SMTP Sample.host 587],
     Raise
       (ExnFrom ConnectionError
          (lit "Erro inesperado ao conectar ao servidor SMTP: "
             ++ lit "connection reset")
          Sample.fault))
  /\ ~ In (imaplib_IMAP4_SSL (lit "imap.example.com") 993)
         [smtplib_SMTP Sample.host 587]
  /\ ~ In (imap_login Sample.user Sample.secret)
         [smtplib_SMTP Sample.host 587].
Proof.
  split; [reflexivity|].
  split; intros [H|[]]; discriminate H.
Qed.

(** Uses what a hypothesis says of the calls that are not log lines. *)
Ltac use_returned :=
  repeat match goal with
         | H : true = true -> _ |- _ => specialize (H eq_refl)
         | H : false = true -> _ |- _ => clear H
         | H : _ /\ _ |- _ => destruct H
         end.

(** C9, as the code has it.  With port 587 or 465 the constructor attempts
    the SMTP leg first, and the IMAP leg exactly when every call of the
    SMTP leg has returned; its events are an initial part of the sequence
    connect, (STARTTLS,) login, log, IMAP connect, IMAP login, log, log.  It
    returns exactly when every call of both legs returns, and then all of
    the sequence was run and both handles are live; otherwise it raises a
    [ConnectionError], as it does whenever a call of either leg raises, so
    that no object with one handle reaches the caller. *)
Theorem construction_is_atomic
    (w : World) (url : str) (port : Z) (login password : str)
    (signature_path : option str) (h : list event) :
  port = 587%Z \/ port = 465%Z ->
  let '(events, r) :=
    EmailSender_new w url port login password signature_path h in
  let host := replace (lit "smtp") (lit "imap") url in
  let smtp_leg := smtp_leg_calls url port login password in
  let full := construction_events url port login password in
  (exists rest,
     events
     = (if (port =? 587)%Z
        then smtplib_SMTP url port else smtplib_SMTP_SSL url port) :: rest)
  /\ prefix_of events full
  /\ (In (imaplib_IMAP4_SSL host 993) events <-> returned w h smtp_leg)
  /\ ((exists self, r = Return self) <-> returned w h full)
  /\ match r with
     | Return self =>
         events = full
         /\ server self
            = Some (if (port =? 587)%Z
                    then SMTP url port else SMTP_SSL url port)
         /\ imap self = Some (IMAP4_SSL host 993)
     | Raise e => class_of e = ConnectionError
     end
  /\ (forall a ev b,
        events = a ++ ev :: b ->
        is_protocol ev = true ->
        raises w (h ++ a) ev <> None ->
        exists e, r = Raise e /\ class_of e = ConnectionError).
Proof.
  intros Hport. cbv zeta.
  destruct Hport as [-> | ->];
    (remember (returned w h (smtp_leg_calls _ _ _ _)) as Rsmtp eqn:HRs);
    (remember (returned w h (construction_events _ _ _ _)) as Rfull eqn:HRf);
    (remember (construction_events _ _ _ _) as full eqn:Hfull);
    unfold_new; cbn; run_calls w; norm_hist;
    subst Rsmtp Rfull full;
    unfold construction_events, smtp_leg_calls, imap_leg_calls;
    (split; [eexists; reflexivity|]);
    (split; [eexists; reflexivity|]);
    (split;
     [ split;
       [ intros Hin; cbn in Hin; norm_hist;
         first
           [ solve [intuition discriminate]
           | cbn; norm_hist; intuition (try discriminate; assumption) ]
       | intros Hret; cbn in Hret; norm_hist; use_returned;
         first [ congruence | cbn; intuition ] ]
     |]);
    (split;
     [ split;
       [ intros [self Hself];
         first
           [ discriminate Hself
           | cbn; norm_hist; intuition (try discriminate; assumption) ]
       | intros Hret; cbn in Hret; norm_hist; use_returned;
         first [ congruence | eexists; reflexivity ] ]
     |]);
    (split;
     [ first [ reflexivity | repeat split ]
     | intros a ev b Hsplit Hp Hfault;
       first
         [ solve [eexists; split; reflexivity]
         | exfalso; apply Hfault;
           eapply returned_split; [|exact Hsplit|exact Hp];
           cbn; norm_hist; intuition (try discriminate; assumption) ] ]).
Qed.

Lemma construction_is_atomic_witness :
  (exists self,
     snd (EmailSender_new Sample.calm Sample.host 587 Sample.user
            Sample.secret None [])
     = Return self)
  /\ exists e,
       snd (EmailSender_new
              (Sample.world
                 (fun ev => match ev with imap_login _ _ => true | _ => false end)
                 Sample.gmail_boxes true true)
              Sample.host 587 Sample.user Sample.secret None [])
       = Raise e
       /\ class_of e = ConnectionError.
Proof.
  split.
  - pose proof (@construction_is_atomic Sample.calm Sample.host 587
                  Sample.user Sample.secret None [] (or_introl eq_refl)) as H.
    destruct (EmailSender_new _ _ _ _ _ _ _) as [events r] in H |- *.
    destruct H as (_ & _ & _ & [_ H] & _).
    apply H. cbn. repeat split.
  - pose proof (@construction_is_atomic
                  (Sample.world
                     (fun ev =>
                        match ev with imap_login _ _ => true | _ => false end)
                     Sample.gmail_boxes true true)
                  Sample.host 587 Sample.user Sample.secret None []
                  (or_introl eq_refl)) as H.
    destruct (EmailSender_new _ _ _ _ _ _ _) as [events r] eqn:E in H |- *.
    vm_compute in E. injection E as <- <-.
    destruct H as (_ & _ & _ & _ & _ & H).
    exact (H [smtplib_SMTP Sample.host 587; starttls;
              smtp_login Sample.user Sample.secret;
              logger INFO (lit "Conectado ao servidor SMTP com sucesso.");
              imaplib_IMAP4_SSL (lit "imap.example.com") 993]
             (imap_login Sample.user Sample.secret) []
             eq_refl eq_refl ltac:(discriminate)).
Defined.

(* ------------------------------------------------------------------ *)
(** ** Teardown *)

Ltac unfold_close :=
  unfold close_connection, try_finally, try_except, bind, get, modify, call,
    log, ask, ret.

(** C7.  [close_connection] returns normally in every world, with both
    handles [None]; when the SMTP handle is there and its socket is gone,
    [quit] is not called and the warning is logged; and a second call right
    after it causes no event and changes nothing. *)
Theorem close_never_raises_and_clears
    (w : World) (self : EmailSender) (h : list event) :
  let '(events, self', r) := close_connection w self h in
  r = Return tt
  /\ server self' = None
  /\ imap self' = None
  /\ (forall s,
        server self = Some s ->
        sock w h = false ->
        ~ In quit events
        /\ In (logger WARNING
                 (lit "Tentativa de fechar conex" ++ [227%N] ++ lit "o SMTP j"
                    ++ [225%N] ++ lit " desconectada.")) events)
  /\ close_connection w self' (h ++ events) = ([], self', Return tt).
Proof.
  destruct self as [u p l pw sg [s|] [i|]];
    unfold_close; cbn;
    try (destruct (sock w (h ++ [])) eqn:Hsock; cbn);
    run_calls w; norm_hist;
    (split; [reflexivity|]); (split; [reflexivity|]); (split; [reflexivity|]);
    (split; [|reflexivity]);
    intros s' Hs Hsock'; try discriminate; try congruence;
    (split; [cbn; intuition discriminate | cbn; auto]).
Qed.

Lemma close_never_raises_and_clears_witness :
  close_connection (Sample.world (fun _ => true) Sample.gmail_boxes false true)
    Sample.connected []
  = ([logger WARNING
        (lit "Tentativa de fechar conex" ++ [227%N] ++ lit "o SMTP j"
           ++ [225%N] ++ lit " desconectada.");
      logout;
      logger EXCEPTION
        (lit "Erro ao encerrar conex" ++ [227%N] ++ lit "o IMAP: "
           ++ lit "connection reset")],
     set_imap None (set_server None Sample.connected),
     Return tt)
  /\ ~ In quit
         (fst (fst (close_connection
                      (Sample.world (fun _ => true) Sample.gmail_boxes false true)
                      Sample.connected []))).
Proof.
  split; [reflexivity|].
  pose proof (@close_never_raises_and_clears
                (Sample.world (fun _ => true) Sample.gmail_boxes false true)
                Sample.connected []) as H.
  destruct (close_connection _ _ _) as [[events self'] r].
  destruct H as (_ & _ & _ & H & _).
  exact (proj1 (H (SMTP Sample.host 587) eq_refl eq_refl)).
Defined.

(* ------------------------------------------------------------------ *)
(** ** Sending *)

Ltac unfold_send :=
  unfold send, send_try, _find_sent_folder, try_except, bind, get, getattr,
    call, log, ask, lift, ret, raise.

(** Case analysis on everything the [try] block of [send] depends on. *)
Ltac run_send w lower :=
  repeat (match goal with
          | |- context [raises w ?h ?ev] =>
              let E := fresh "E" in destruct (raises w h ev) eqn:E
          | |- context [list_response w ?h] =>
              let status := fresh "status" in
              let mailboxes := fresh "mailboxes" in
              destruct (list_response w h) as [status mailboxes]
          | |- context [mailbox_loop w lower ?l ?o] =>
              let F := fresh "F" in destruct (mailbox_loop w lower l o) eqn:F
          | |- context [encode ?m] =>
              let C := fresh "C" in destruct (encode m) eqn:C
          end; cbn).

(** C6.  An exception of the [Email] builder leaves [send] as it is: no
    event, the object untouched, no [SMTPResponse]. *)
Theorem builder_failure_propagates
    (w : World) (lower : str -> str) (self : EmailSender) (h : list event)
    (subject body to_email : str) (cc_emails file_path : option str)
    (e : exn) :
  build_email w h (builder_args self subject body to_email cc_emails file_path)
  = Raise e ->
  send w lower subject body to_email cc_emails file_path self h
  = ([], self, Raise e).
Proof.
  intros Hb. unfold_send. cbn. rewrite !app_nil_r, Hb. reflexivity.
Qed.

Lemma builder_failure_propagates_witness :
  send (Sample.world (fun _ => false) Sample.gmail_boxes true false)
    ascii_lower (lit "Hi") (lit "text") Sample.dest None
    (Some (lit "/missing.pdf")) Sample.connected []
  = ([], Sample.connected,
     Raise (Exn OtherException (lit "No such file or directory"))).
Proof.
  apply (@builder_failure_propagates
           (Sample.world (fun _ => false) Sample.gmail_boxes true false)
           ascii_lower Sample.connected [] (lit "Hi") (lit "text") Sample.dest
           None (Some (lit "/missing.pdf"))
           (Exn OtherException (lit "No such file or directory"))).
  reflexivity.
Defined.

(** The [try] block leaves the object alone and, when it returns, returns
    the success record. *)
Lemma send_try_inv
    (w : World) (lower : str -> str) (self : EmailSender)
    (email : Email) (subject : str) (h : list event) :
  let '(_, self', r) := send_try w lower email subject self h in
  self' = self
  /\ match r with
     | Return resp => resp = SMTPResponse_new true email None None
     | Raise _ => True
     end.
Proof.
  destruct self as [u p l pw sg [s|] [i|]];
    unfold_send; cbn; run_send w lower; split; reflexivity || exact I.
Qed.

(** A call of [send] that raises turns the result into the failure
    record. *)
Lemma send_call_fault
    (w : World) (lower : str -> str) (self : EmailSender) (h : list event)
    (subj text rcpt : str) (cc path : option str) (email : Email) :
  build_email w h (builder_args self subj text rcpt cc path) = Return email ->
  let '(events, _, r) := send w lower subj text rcpt cc path self h in
  forall a ev b,
    events = a ++ ev :: b ->
    is_protocol ev = true ->
    raises w (h ++ a) ev <> None ->
    exists e,
      r = Return (SMTPResponse_new false email (Some (send_error rcpt e))
                    (Some 500%Z)).
Proof.
  intros Hb.
  destruct self as [u p l pw sg [s|] [i|]];
    unfold_send; cbn; rewrite !app_nil_r, Hb; cbn;
    run_send w lower; norm_hist;
    intros ? ? ? Hsplit Hp Hfault;
    first
      [ solve [eexists; reflexivity]
      | exfalso; apply Hfault;
        eapply returned_split; [|exact Hsplit|exact Hp];
        cbn; norm_hist; intuition (try discriminate; assumption) ].
Qed.

(** C4.  When the builder has produced [email], [send] returns normally
    and leaves the object as it was.  If the [try] block (transmit, folder
    resolution, append) raises [e], the result has [success = false], error
    code 500, the error message "Erro ao enviar e-mail para <rcpt>: <e>",
    which holds the recipient [rcpt] passed to [send], and the descriptive
    fields of [email]; the exception is logged and goes no further.  In
    particular a call made by [send] that raises leads to this result. *)
Theorem send_failure_is_reported
    (w : World) (lower : str -> str) (self : EmailSender) (h : list event)
    (subj text rcpt : str) (cc path : option str) (email : Email) :
  build_email w h (builder_args self subj text rcpt cc path) = Return email ->
  let '(events, self', r) := send w lower subj text rcpt cc path self h in
  let '(tried, _, r_try) := send_try w lower email subj self h in
  self' = self
  /\ match r_try with
     | Return ok => r = Return ok /\ events = tried
     | Raise e =>
         exists resp,
           r = Return resp
           /\ success resp = false
           /\ error_code resp = Some 500%Z
           /\ error_message resp
              = Some (lit "Erro ao enviar e-mail para " ++ rcpt
                        ++ lit ": " ++ str_of e)
           /\ sender resp = from_email email
           /\ resp_subject resp = subject email
           /\ resp_body resp = body email
           /\ resp_html_body resp = html_body email
           /\ recipient resp = to_email email
           /\ cc_list resp = cc_emails email
           /\ resp_signature_path resp = signature_path email
           /\ attachment_path resp = file_path email
           /\ events
              = tried ++ [logger EXCEPTION
                            (lit "Erro ao enviar e-mail para " ++ rcpt
                               ++ lit ": " ++ str_of e)]
     end
  /\ (forall a ev b,
        events = a ++ ev :: b ->
        is_protocol ev = true ->
        raises w (h ++ a) ev <> None ->
        exists resp,
          r = Return resp /\ success resp = false
          /\ error_code resp = Some 500%Z).
Proof.
  intros Hb.
  pose proof (@send_call_fault w lower self h subj text rcpt cc path email Hb)
    as Hfault.
  revert Hfault.
  unfold send, try_except, bind, get, ask, lift, log, ret.
  cbn -[send_try].
  rewrite !app_nil_r, Hb.
  pose proof (@send_try_inv w lower self email subj h) as Hinv.
  destruct (send_try w lower email subj self h)
    as [[tried self1] [ok|e]]; destruct Hinv as [-> Hok]; cbn; intros Hfault.
  - repeat split.
    intros a ev b Hsplit Hp Hf.
    destruct (Hfault a ev b Hsplit Hp Hf) as [e ->].
    eexists; repeat split.
  - split; [reflexivity|]. split.
    + eexists. repeat split.
    + intros a ev b Hsplit Hp Hf.
      destruct (Hfault a ev b Hsplit Hp Hf) as [e' ->].
      eexists; repeat split.
Qed.

Lemma send_failure_is_reported_witness :
  exists resp,
    snd (send (Sample.world is_append Sample.gmail_boxes true true)
           ascii_lower (lit "Hi") (lit "text") Sample.dest None None
           Sample.connected [])
    = Return resp
    /\ success resp = false
    /\ error_code resp = Some 500%Z.
Proof.
  pose proof (@send_failure_is_reported
                (Sample.world is_append Sample.gmail_boxes true true)
                ascii_lower Sample.connected [] (lit "Hi") (lit "text")
                Sample.dest None None
                (Sample.email_of
                   (builder_args Sample.connected (lit "Hi") (lit "text")
                      Sample.dest None None))
                eq_refl) as H.
  destruct (send _ _ _ _ _ _ _ _ _) as [[events self'] r] eqn:E in H |- *.
  destruct (send_try _ _ _ _ _ _) as [[tried self1] r_try] in H.
  destruct H as (_ & _ & H).
  vm_compute in E. injection E as <- _ _.
  exact (H [logger INFO (lit "Enviando e-mail " ++ dq ++ lit "Hi" ++ dq);
            sendmail Sample.user [Sample.dest]
              (lit "Subject: Hi" ++ [10%N; 10%N] ++ lit "text");
            logger INFO (lit "E-mail enviado com sucesso");
            imap_list;
            logger INFO
              (lit "Salvando e-mail em " ++ dq ++ lit "[Gmail]/Sent Mail" ++ dq)]
           (imap_append (Some (dq ++ lit "[Gmail]/Sent Mail" ++ dq)) []
              (dq ++ lit "03-Nov-2026 10:00:00 +0000" ++ dq)
              (Sample.bytes_lit "Subject: Hi" ++ [x0a; x0a]
                 ++ Sample.bytes_lit "text"))
           [logger EXCEPTION
              (lit "Erro ao enviar e-mail para " ++ Sample.dest ++ lit ": "
                 ++ lit "connection reset")]
           eq_refl eq_refl ltac:(discriminate)).
Defined.

Lemma split_cons_inv (x : event) (l a : list event) (ev : event)
    (b : list event) :
  x :: l = a ++ ev :: b ->
  (a = [] /\ ev = x /\ b = l) \/ (exists a', a = x :: a' /\ l = a' ++ ev :: b).
Proof.
  destruct a as [|y a]; cbn; intros H; injection H as -> ->.
  - left. repeat split.
  - right. eexists. split; reflexivity.
Qed.

(** All the ways of cutting a list of known length at one of its
    elements. *)
Ltac enum_splits H :=
  lazymatch type of H with
  | [] = _ ++ _ :: _ =>
      exfalso; exact (app_cons_not_nil _ _ _ H)
  | _ :: _ = _ ++ _ :: _ =>
      apply split_cons_inv in H;
      let a' := fresh "a" in
      destruct H as [(-> & -> & ->) | (a' & -> & H)]; [ | enum_splits H]
  end.



(** After [close_connection] both handles are [None]. *)
Lemma close_connection_clears (w : World) (self : EmailSender) (h : list event) :
  let '(_, self', _) := close_connection w self h in
  server self' = None /\ imap self' = None.
Proof.
  destruct self as [u p l pw sg [s|] [i|]];
    unfold_close; cbn;
    try (destruct (sock w (h ++ [])); cbn);
    run_calls w; split; reflexivity.
Qed.

(** [send] on an object without SMTP handle: the attribute error of line
    120 is caught, and no call reaches a server. *)
Lemma send_without_server
    (w : World) (lower : str -> str) (self : EmailSender) (h : list event)
    (subj text rcpt : str) (cc path : option str) (email : Email) :
  server self = None ->
  build_email w h (builder_args self subj text rcpt cc path) = Return email ->
  let e := Exn AttributeError
             (lit "'NoneType' object has no attribute '" ++ lit "sendmail"
                ++ lit "'") in
  send w lower subj text rcpt cc path self h
  = ([logger INFO (lit "Enviando e-mail " ++ dq ++ subj ++ dq);
      logger EXCEPTION (send_error rcpt e)],
     self,
     Return (SMTPResponse_new false email (Some (send_error rcpt e))
               (Some 500%Z))).
Proof.
  intros Hs Hb. unfold_send. rewrite Hs. cbn. rewrite !app_nil_r, Hb.
  reflexivity.
Qed.

(** C10.  [send] called after [close_connection], the builder having
    produced [email], does not raise: the missing SMTP handle is met inside
    the [try] block, and [send] returns a result with [success = false] and
    error code 500, having made no call but the two on the logger. *)
Theorem send_after_close_reports_failure
    (w : World) (lower : str -> str) (self : EmailSender) (h : list event)
    (subj text rcpt : str) (cc path : option str) (email : Email) :
  let '(closing, closed, _) := close_connection w self h in
  build_email w (h ++ closing) (builder_args closed subj text rcpt cc path)
  = Return email ->
  exists resp message,
    send w lower subj text rcpt cc path closed (h ++ closing)
    = ([logger INFO (lit "Enviando e-mail " ++ dq ++ subj ++ dq);
        logger EXCEPTION message],
       closed, Return resp)
    /\ success resp = false
    /\ error_code resp = Some 500%Z
    /\ error_message resp = Some message.
Proof.
  pose proof (close_connection_clears w self h) as Hc.
  destruct (close_connection w self h) as [[closing closed] r].
  destruct Hc as [Hs _]. intros Hb.
  rewrite (@send_without_server w lower closed (h ++ closing) subj text rcpt
             cc path email Hs Hb).
  eexists. eexists. repeat split.
Qed.

Lemma send_after_close_reports_failure_witness :
  exists resp message,
    send Sample.calm ascii_lower (lit "Hi") (lit "text") Sample.dest None None
      (set_imap None (set_server None Sample.connected))
      [quit; logger INFO (lit "Conex" ++ [227%N] ++ lit "o SMTP encerrada.");
       logout; logger INFO (lit "Conex" ++ [227%N] ++ lit "o IMAP encerrada.")]
    = ([logger INFO (lit "Enviando e-mail " ++ dq ++ lit "Hi" ++ dq);
        logger EXCEPTION message],
       set_imap None (set_server None Sample.connected), Return resp)
    /\ success resp = false
    /\ error_code resp = Some 500%Z
    /\ error_message resp = Some message.
Proof.
  exact (@send_after_close_reports_failure Sample.calm ascii_lower
           Sample.connected [] (lit "Hi") (lit "text") Sample.dest None None
           (Sample.email_of
              (builder_args (set_imap None (set_server None Sample.connected))
                 (lit "Hi") (lit "text") Sample.dest None None))
           eq_refl).
Defined.

(* ------------------------------------------------------------------ *)
(** ** The model at work *)

(** The spec's listing: the Gmail entry is met first and its keyword is in
    the table. *)
Example resolver_gmail :
  mailbox_loop Sample.calm ascii_lower
    (List.map entry_bytes Sample.gmail_boxes) None
  = Return (Some (dq ++ lit "[Gmail]/Sent Mail" ++ dq)).
Proof. reflexivity. Qed.

(** No provider keyword: the last segment after the delimiter. *)
Example resolver_fallback :
  mailbox_loop Sample.calm ascii_lower
    [entry_bytes (Sample.bytes_lit "INBOX");
     entry_bytes
       (Sample.bytes_lit "(\HasNoChildren \Sent) " ++ [x22; x2e; x22]
          ++ Sample.bytes_lit " Sent")]
    None
  = Return (Some (lit "Sent")).
Proof. reflexivity. Qed.

(** Two keywords in one entry: the table order decides, not the order
    in the entry. *)
Example resolver_table_order :
  mailbox_loop Sample.calm ascii_lower
    [entry_bytes (Sample.bytes_lit "Yahoo/Gmail/Sent")] None
  = Return (Some (dq ++ lit "[Gmail]/Sent Mail" ++ dq)).
Proof. reflexivity. Qed.

Example resolver_no_sent :
  mailbox_loop Sample.calm ascii_lower
    [entry_bytes (Sample.bytes_lit "INBOX");
     entry_bytes (Sample.bytes_lit "Trash")]
    None
  = Return None.
Proof. reflexivity. Qed.

(** An entry that is not UTF-8 stops the scan before the "Sent" entry. *)
Example resolver_undecodable :
  mailbox_loop Sample.calm ascii_lower
    [entry_bytes [xff]; entry_bytes (Sample.bytes_lit "Sent")] None
  = Raise (Exn UnicodeDecodeError (decode_error_text Sample.calm [xff])).
Proof. reflexivity. Qed.

(** A pair in the listing has no [decode]. *)
Example resolver_tuple :
  mailbox_loop Sample.calm ascii_lower
    [entry_tuple (Sample.bytes_lit "() / {4}") (Sample.bytes_lit "Sent")] None
  = Raise (Exn AttributeError
             (lit "'tuple' object has no attribute 'decode'")).
Proof. reflexivity. Qed.

Example replace_example :
  replace (lit "smtp") (lit "imap") (lit "smtp.example.com")
  = lit "imap.example.com".
Proof. reflexivity. Qed.

(** Occurrences of the delimiter are found from the left and do not
    overlap. *)
Example split_example :
  split delimiter (lit "a" ++ delimiter ++ dq ++ lit "." ++ dq ++ lit " b")
  = [lit "a"; dq ++ lit "." ++ dq ++ lit " b"].
Proof. reflexivity. Qed.

Example decode_example :
  decode [x63; xc3; xa3; x6f] = Some [99; 227; 111]%N
  /\ decode [xff] = None
  /\ encode [99; 227; 111]%N = Some [x63; xc3; xa3; x6f].
Proof. repeat split; reflexivity. Qed.

(** A send on a connected object in a world without faults. *)
Example send_succeeds :
  exists events resp,
    send Sample.calm ascii_lower (lit "Hi") (lit "text") Sample.dest None None
      Sample.connected []
    = (events, Sample.connected, Return resp)
    /\ success resp = true
    /\ List.filter is_protocol events
       = [sendmail Sample.user [Sample.dest]
            (lit "Subject: Hi" ++ [10%N; 10%N] ++ lit "text");
          imap_list;
          imap_append (Some (dq ++ lit "[Gmail]/Sent Mail" ++ dq)) []
            (dq ++ lit "03-Nov-2026 10:00:00 +0000" ++ dq)
            (Sample.bytes_lit "Subject: Hi" ++ [x0a; x0a]
               ++ Sample.bytes_lit "text")].
Proof. eexists. eexists. repeat split. Qed.

(* ------------------------------------------------------------------ *)
(** ** Further properties: strings *)

Section MoreStringFacts.

Lemma split_from_skip (sep cur : str) :
  forall s k, split_from sep k cur s = split_from sep 0 cur (skipn k s).
Proof.
  induction s as [|c s IH]; intros k.
  - now destruct k.
  - destruct k as [|k]; [reflexivity|]. cbn [split_from skipn]. apply IH.
Qed.

Lemma split_from_nonempty (sep : str) :
  forall s k cur, split_from sep k cur s <> [].
Proof.
  induction s as [|c s IH]; intros k cur; cbn [split_from].
  - discriminate.
  - destruct k; [|apply IH].
    destruct (starts_with sep (c :: s)); [discriminate|apply IH].
Qed.

Lemma last_cons (x : str) (l : list str) :
  l <> [] -> List.last (x :: l) [] = List.last l [].
Proof. destruct l; [contradiction|reflexivity]. Qed.

Lemma contains_here (sub s : str) :
  starts_with sub s = true -> contains sub s = true.
Proof. intros H. destruct s; cbn [contains]; now rewrite H. Qed.

Lemma contains_cons (sub : str) (c : char) (s : str) :
  contains sub (c :: s) = starts_with sub (c :: s) || contains sub s.
Proof. reflexivity. Qed.

(** The last segment of a split, for the segment [cur] under way. *)
Lemma last_split_from (o : char) (sep' : str) :
  forall n s cur,
    List.length s <= n ->
    let l := List.last (split_from (o :: sep') 0 cur s) [] in
    (contains (o :: sep') s = false /\ l = List.rev cur ++ s)
    \/ (contains (o :: sep') s = true
        /\ suffix_of l s /\ contains (o :: sep') l = false).
Proof.
  induction n as [|n IH]; intros s cur Hn; cbv zeta.
  - destruct s; [|cbn in Hn; lia].
    left. cbn. now rewrite app_nil_r.
  - destruct s as [|c s].
    + left. cbn. now rewrite app_nil_r.
    + cbn [split_from].
      destruct (starts_with (o :: sep') (c :: s)) eqn:Hs.
      * right.
        pose proof (starts_with_split _ _ Hs) as Hsplit.
        cbn [List.length skipn] in Hsplit.
        replace (List.length (o :: sep') - 1) with (List.length sep')
          by (cbn; lia).
        rewrite split_from_skip, last_cons by apply split_from_nonempty.
        assert (Hlen : List.length (skipn (List.length sep') s) <= n).
        { rewrite length_skipn. cbn in Hn. lia. }
        split; [now apply contains_here|].
        destruct (IH (skipn (List.length sep') s) [] Hlen)
          as [[Hc Hl] | [_ [[pre Hpre] Hc]]].
        -- cbn [List.rev app] in Hl. rewrite Hl.
           split; [|exact Hc]. exists (o :: sep'). exact Hsplit.
        -- split; [|exact Hc]. exists ((o :: sep') ++ pre).
           rewrite <- app_assoc, <- Hpre. exact Hsplit.
      * assert (Hlen : List.length s <= n) by (cbn in Hn; lia).
        destruct (IH s (c :: cur) Hlen) as [[Hc Hl] | [Hc [[pre Hpre] Hd]]].
        -- left. rewrite contains_cons, Hs, Hc. split; [reflexivity|].
           rewrite Hl. cbn [List.rev]. now rewrite <- app_assoc.
        -- right. rewrite contains_cons, Hc, orb_true_r.
           split; [reflexivity|]. split; [|exact Hd].
           exists (c :: pre). cbn. now f_equal.
Qed.

Lemma replace_no_occurrence (o : char) (old' new : str) :
  forall s, contains (o :: old') s = false -> replace (o :: old') new s = s.
Proof.
  induction s as [|c s IH]; intros H; [reflexivity|].
  rewrite contains_cons in H. apply orb_false_iff in H as [Hs Hc].
  rewrite replace_keep by exact Hs. now rewrite IH.
Qed.

End MoreStringFacts.

(* ------------------------------------------------------------------ *)
(** ** Further properties: the sent-folder heuristic *)

(** The three ways [_find_sent_folder] can run. *)
Lemma find_sent_folder_cases
    (w : World) (lower : str -> str) (self : EmailSender) (h : list event) :
  _find_sent_folder w lower self h
  = match imap self with
    | None =>
        ([], self,
         Raise (Exn AttributeError
                  (lit "'NoneType' object has no attribute '" ++ lit "list"
                     ++ lit "'")))
    | Some _ =>
        match raises w h imap_list with
        | Some e => ([imap_list], self, Raise e)
        | None =>
            ([imap_list], self,
             mailbox_loop w lower (snd (list_response w (h ++ [imap_list])))
               None)
        end
    end.
Proof.
  unfold _find_sent_folder, bind, get, getattr, call, ask, lift, ret, raise.
  destruct (imap self); cbn; [|reflexivity].
  rewrite !app_nil_r. destruct (raises w h imap_list); cbn; [reflexivity|].
  destruct (list_response w (h ++ [imap_list])). reflexivity.
Qed.

(** When [_find_sent_folder] returns, the listing was read and the loop
    returned the same value. *)
Lemma find_sent_folder_returns
    (w : World) (lower : str -> str) (self : EmailSender) (h : list event)
    (x : option str) :
  snd (_find_sent_folder w lower self h) = Return x ->
  mailbox_loop w lower (snd (list_response w (h ++ [imap_list]))) None
  = Return x.
Proof.
  rewrite find_sent_folder_cases.
  destruct (imap self); [|discriminate].
  destruct (raises w h imap_list); [discriminate|]. exact (fun H => H).
Qed.

(** [decode] returns for valid UTF-8 [bytes] only. *)
Lemma entry_decode_returns (w : World) (mailbox : entry) (name : str) :
  entry_decode w mailbox = Return name ->
  exists line, mailbox = entry_bytes line /\ decode line = Some name.
Proof.
  destruct mailbox as [line| |hd lt]; cbn; try discriminate.
  destruct (decode line) as [n|] eqn:E; [|discriminate].
  intros H. injection H as <-. now exists line.
Qed.

(** When [decode] raises: on [bytes] that are not UTF-8, with the text of
    the codec, and on what is not [bytes]. *)
Lemma entry_decode_raises (w : World) (mailbox : entry) (e : exn) :
  entry_decode w mailbox = Raise e ->
  (exists line,
     mailbox = entry_bytes line /\ decode line = None
     /\ e = Exn UnicodeDecodeError (decode_error_text w line))
  \/ ((mailbox = entry_none \/ exists hd lt, mailbox = entry_tuple hd lt)
      /\ class_of e = AttributeError).
Proof.
  destruct mailbox as [line| |hd lt]; cbn.
  - destruct (decode line) eqn:E; [discriminate|].
    intros H. injection H as <-. left. now exists line.
  - intros H. injection H as <-. right. split; [now left|reflexivity].
  - intros H. injection H as <-. right.
    split; [right; now exists hd, lt|reflexivity].
Qed.

Lemma mailbox_loop_hit (w : World) (lower : str -> str) (mailbox : bytes)
    (name : str) (rest : list entry) :
  decode mailbox = Some name ->
  contains (lit "sent") (lower name) = true ->
  mailbox_loop w lower (entry_bytes mailbox :: rest) None
  = Return (Some (folder_for lower name)).
Proof.
  intros Hd Hc. cbn [mailbox_loop entry_decode]. rewrite Hd, Hc. f_equal.
  apply hit_folder.
Qed.

Lemma mailbox_loop_miss (w : World) (lower : str -> str) (mailbox : bytes)
    (name : str) (rest : list entry) :
  decode mailbox = Some name ->
  contains (lit "sent") (lower name) = false ->
  mailbox_loop w lower (entry_bytes mailbox :: rest) None
  = mailbox_loop w lower rest None.
Proof. intros Hd Hc. cbn [mailbox_loop entry_decode]. now rewrite Hd, Hc. Qed.

(** One turn of the loop: the entry raises, is the first with "sent", or
    is passed. *)
Lemma mailbox_loop_step (w : World) (lower : str -> str) (mailbox : entry)
    (rest : list entry) :
  (exists e,
     entry_decode w mailbox = Raise e
     /\ mailbox_loop w lower (mailbox :: rest) None = Raise e)
  \/ (exists line name,
        mailbox = entry_bytes line /\ decode line = Some name
        /\ contains (lit "sent") (lower name) = true
        /\ mailbox_loop w lower (mailbox :: rest) None
           = Return (Some (folder_for lower name)))
  \/ (not_a_sent_entry lower mailbox
      /\ mailbox_loop w lower (mailbox :: rest) None
         = mailbox_loop w lower rest None).
Proof.
  destruct (entry_decode w mailbox) as [name|e] eqn:E.
  - apply entry_decode_returns in E as (line & -> & Hd).
    destruct (contains (lit "sent") (lower name)) eqn:Hc.
    + right. left. exists line, name.
      repeat split; try assumption. now apply mailbox_loop_hit.
    + right. right. split; [now exists line, name|].
      now apply (@mailbox_loop_miss w lower line name).
  - left. exists e. split; [reflexivity|].
    cbn [mailbox_loop]. now rewrite E.
Qed.

Lemma folder_for_range (lower : str -> str) (name : str) :
  In (folder_for lower name) (List.map snd email_folders)
  \/ (suffix_of (folder_for lower name) name
      /\ contains delimiter (folder_for lower name) = false
      /\ (contains delimiter name = false -> folder_for lower name = name)).
Proof.
  unfold folder_for.
  destruct (List.find _ email_folders) as [[provider folder]|] eqn:F.
  - left. apply find_some in F as [F _].
    exact (in_map snd _ _ F).
  - right. unfold last_segment, split.
    assert (D : exists o sep', delimiter = o :: sep')
      by (eexists; eexists; reflexivity).
    destruct D as (o & sep' & ->).
    destruct (@last_split_from o sep' (List.length name) name [] (le_n _))
      as [[Hc Hl] | [Hc [Hs Hd]]].
    + cbn [List.rev app] in Hl. rewrite Hl.
      split; [exists []; reflexivity|]. split; [exact Hc|reflexivity].
    + split; [exact Hs|]. split; [exact Hd|]. intros Hn. congruence.
Qed.

(** X1.  A folder returned by [_find_sent_folder] is either one of the
    folders of the table or a final part of a decoded entry of the listing
    in which the delimiter does not occur; for an entry without the
    delimiter this final part is the whole entry. *)
Theorem find_sent_folder_result_range
    (w : World) (lower : str -> str) (self : EmailSender) (h : list event)
    (folder : str) :
  snd (_find_sent_folder w lower self h) = Return (Some folder) ->
  In folder (List.map snd email_folders)
  \/ exists mailbox name,
       In (entry_bytes mailbox) (snd (list_response w (h ++ [imap_list])))
       /\ decode mailbox = Some name
       /\ suffix_of folder name
       /\ contains delimiter folder = false
       /\ (contains delimiter name = false -> folder = name).
Proof.
  intros H. apply find_sent_folder_returns in H.
  induction (snd (list_response w (h ++ [imap_list]))) as [|mailbox rest IH].
  - discriminate.
  - destruct (mailbox_loop_step w lower mailbox rest)
      as [(e & _ & R) | [(line & name & -> & Hd & Hc & R) | [_ R]]];
      rewrite R in H.
    + discriminate.
    + injection H as <-.
      destruct (folder_for_range lower name) as [T|T]; [now left|right].
      exists line, name. split; [now left|]. split; [exact Hd|exact T].
    + destruct (IH H) as [T|(m & n & Hin & T)]; [now left|right].
      exists m, n. split; [now right|exact T].
Qed.

Lemma find_sent_folder_result_range_witness :
  exists mailbox name,
    In (entry_bytes mailbox)
      [entry_bytes (Sample.bytes_lit "INBOX");
       entry_bytes (Sample.bytes_lit "(\Sent) / Sent")]
    /\ decode mailbox = Some name
    /\ suffix_of (lit "(\Sent) / Sent") name
    /\ contains delimiter (lit "(\Sent) / Sent") = false
    /\ (contains delimiter name = false -> lit "(\Sent) / Sent" = name).
Proof.
  destruct (@find_sent_folder_result_range
              (Sample.world (fun _ => false)
                 [Sample.bytes_lit "INBOX"; Sample.bytes_lit "(\Sent) / Sent"]
                 true true)
              ascii_lower Sample.connected [] (lit "(\Sent) / Sent") eq_refl)
    as [T|R].
  - exfalso. vm_compute in T. intuition discriminate.
  - exact R.
Defined.

(** X2.  [_find_sent_folder] returns [None] only for a listing in which
    every entry decodes and none contains "sent". *)
Theorem find_sent_folder_none_only_without_sent
    (w : World) (lower : str -> str) (self : EmailSender) (h : list event) :
  snd (_find_sent_folder w lower self h) = Return None ->
  Forall (not_a_sent_entry lower) (snd (list_response w (h ++ [imap_list]))).
Proof.
  intros H. apply find_sent_folder_returns in H.
  induction (snd (list_response w (h ++ [imap_list]))) as [|mailbox rest IH].
  - constructor.
  - destruct (mailbox_loop_step w lower mailbox rest)
      as [(e & _ & R) | [(line & name & _ & _ & _ & R) | [N R]]];
      rewrite R in H; try discriminate.
    constructor; [exact N|exact (IH H)].
Qed.

Lemma find_sent_folder_none_only_without_sent_witness :
  Forall (not_a_sent_entry ascii_lower)
    [entry_bytes (Sample.bytes_lit "INBOX");
     entry_bytes (Sample.bytes_lit "Trash")].
Proof.
  exact (@find_sent_folder_none_only_without_sent
           (Sample.world (fun _ => false)
              [Sample.bytes_lit "INBOX"; Sample.bytes_lit "Trash"] true true)
           ascii_lower Sample.connected [] eq_refl).
Defined.

(** If the loop over the listing raises, the exception is the one of
    [decode] on an entry that no entry containing "sent" precedes. *)
Lemma mailbox_loop_raises
    (w : World) (lower : str -> str) (mailboxes : list entry) (e : exn) :
  mailbox_loop w lower mailboxes None = Raise e ->
  exists pre bad post,
    mailboxes = pre ++ bad :: post
    /\ Forall (not_a_sent_entry lower) pre
    /\ entry_decode w bad = Raise e.
Proof.
  induction mailboxes as [|mailbox rest IH]; intros H; [discriminate|].
  destruct (mailbox_loop_step w lower mailbox rest)
    as [(e' & D & R) | [(line & name & _ & _ & _ & R) | [N R]]];
    rewrite R in H.
  - injection H as <-. exists [], mailbox, rest.
    split; [reflexivity|]. split; [constructor|exact D].
  - discriminate.
  - destruct (IH H) as (pre & bad & post & -> & Hp & Hb).
    exists (mailbox :: pre), bad, post.
    split; [reflexivity|]. split; [now constructor|exact Hb].
Qed.

(** X3.  [_find_sent_folder] raises in four ways only: an
    [AttributeError], before any call, when the IMAP handle is [None]; the
    exception of the [list] call; and, for an entry of the listing that no
    entry containing "sent" precedes, the [UnicodeDecodeError] of the codec
    when the entry is [bytes] that are not valid UTF-8, or an
    [AttributeError] when the entry is [None] or a pair. *)
Theorem find_sent_folder_errors
    (w : World) (lower : str -> str) (self : EmailSender) (h : list event)
    (e : exn) :
  snd (_find_sent_folder w lower self h) = Raise e ->
  (imap self = None /\ class_of e = AttributeError
   /\ fst (fst (_find_sent_folder w lower self h)) = [])
  \/ raises w h imap_list = Some e
  \/ exists pre bad post,
       snd (list_response w (h ++ [imap_list])) = pre ++ bad :: post
       /\ Forall (not_a_sent_entry lower) pre
       /\ ((exists line,
              bad = entry_bytes line /\ decode line = None
              /\ e = Exn UnicodeDecodeError (decode_error_text w line))
           \/ ((bad = entry_none \/ exists hd lt, bad = entry_tuple hd lt)
               /\ class_of e = AttributeError)).
Proof.
  rewrite find_sent_folder_cases.
  destruct (imap self).
  - destruct (raises w h imap_list) as [e0|]; cbn [snd]; intros H.
    + injection H as <-. right. now left.
    + right. right.
      apply mailbox_loop_raises in H as (pre & bad & post & Hl & Hp & Hb).
      exists pre, bad, post. split; [exact Hl|]. split; [exact Hp|].
      now apply entry_decode_raises.
  - cbn. intros H. injection H as <-. left. repeat split.
Qed.

Lemma find_sent_folder_errors_witness :
  exists pre bad post,
    [entry_bytes (Sample.bytes_lit "INBOX"); entry_none]
    = pre ++ bad :: post
    /\ Forall (not_a_sent_entry ascii_lower) pre
    /\ ((exists line,
           bad = entry_bytes line /\ decode line = None
           /\ Exn AttributeError
                (lit "'NoneType' object has no attribute 'decode'")
              = Exn UnicodeDecodeError (decode_error_text Sample.calm line))
        \/ ((bad = entry_none \/ exists hd lt, bad = entry_tuple hd lt)
            /\ class_of
                 (Exn AttributeError
                    (lit "'NoneType' object has no attribute 'decode'"))
               = AttributeError)).
Proof.
  destruct (@find_sent_folder_errors
              (Sample.world_of (fun _ => false)
                 [entry_bytes (Sample.bytes_lit "INBOX"); entry_none]
                 true true)
              ascii_lower Sample.connected []
              (Exn AttributeError
                 (lit "'NoneType' object has no attribute 'decode'"))
              eq_refl) as [[H _]|[H|H]].
  - discriminate H.
  - discriminate H.
  - exact H.
Defined.

Lemma utf8_decode_ascii (ns : list N) :
  Forall (fun n => (n < 128)%N) ns -> utf8_decode_N ns = Some ns.
Proof.
  induction 1 as [|n ns Hn _ IH]; [reflexivity|].
  cbn [utf8_decode_N].
  apply N.ltb_lt in Hn. rewrite Hn, IH. reflexivity.
Qed.

Lemma decode_ascii (b : bytes) :
  ascii_only b -> decode b = Some (List.map Byte.to_N b).
Proof.
  intros H. unfold decode. apply utf8_decode_ascii.
  unfold ascii_only in H. induction H; constructor; assumption.
Qed.

(** X4.  On a live IMAP handle whose [list] call returns a listing of
    7-bit lines, [_find_sent_folder] returns: it makes the one call and
    raises nothing, each line being read as its bytes, one character
    each. *)
Theorem find_sent_folder_total_on_ascii
    (w : World) (lower : str -> str) (self : EmailSender) (h : list event)
    (handle : IMAP_handle) :
  imap self = Some handle ->
  raises w h imap_list = None ->
  Forall ascii_entry (snd (list_response w (h ++ [imap_list]))) ->
  (exists r, _find_sent_folder w lower self h = ([imap_list], self, Return r))
  /\ forall mailbox,
       In (entry_bytes mailbox) (snd (list_response w (h ++ [imap_list]))) ->
       decode mailbox = Some (List.map Byte.to_N mailbox).
Proof.
  intros Hi Hr H. split.
  - rewrite find_sent_folder_cases, Hi, Hr.
    destruct (mailbox_loop w lower _ None) as [r|e] eqn:E;
      [now exists r|exfalso].
    apply mailbox_loop_raises in E as (pre & bad & post & Hl & _ & Hb).
    rewrite Hl in H.
    apply Forall_app in H as [_ H].
    inversion H as [|? ? (line & -> & Hbad) _]; subst.
    cbn in Hb. rewrite (decode_ascii Hbad) in Hb. discriminate.
  - intros mailbox Hin.
    destruct (proj1 (Forall_forall _ _) H _ Hin) as (line & Heq & Hascii).
    injection Heq as ->. now apply decode_ascii.
Qed.

Lemma find_sent_folder_total_on_ascii_witness :
  exists r,
    _find_sent_folder Sample.calm ascii_lower Sample.connected []
    = ([imap_list], Sample.connected, Return r).
Proof.
  apply (@find_sent_folder_total_on_ascii Sample.calm ascii_lower
           Sample.connected [] (IMAP4_SSL (lit "imap.example.com") 993)
           eq_refl eq_refl).
  repeat constructor;
    (eexists; split; [reflexivity|repeat constructor; vm_compute; reflexivity]).
Defined.

(* ------------------------------------------------------------------ *)
(** ** Further properties: the IMAP host *)

Section ImapHost.

Lemma starts_with_cons (a : char) (p : str) (b : char) (s : str) :
  starts_with (a :: p) (b :: s) = N.eqb a b && starts_with p s.
Proof. reflexivity. Qed.

Lemma lit_smtp : lit "smtp" = smtp_word.
Proof. reflexivity. Qed.

Lemma lit_imap : lit "imap" = imap_word.
Proof. reflexivity. Qed.

(** A text without the letter i that opens the result of the replacement
    opens the host name as well: it lies in characters that were kept. *)
Lemma kept_prefix (q : str) :
  Forall (fun c => c <> 105%N) q ->
  forall s,
    starts_with q (replace smtp_word imap_word s) = true ->
    starts_with q s = true.
Proof.
  induction 1 as [|c q Hc _ IH]; intros s H; [reflexivity|].
  destruct s as [|c0 s0]; [discriminate H|].
  destruct (starts_with smtp_word (c0 :: s0)) eqn:M.
  - apply starts_with_split in M. rewrite M in H.
    assert (Hhit :
              replace smtp_word imap_word
                (smtp_word ++ skipn (List.length smtp_word) (c0 :: s0))
              = imap_word
                  ++ replace smtp_word imap_word
                       (skipn (List.length smtp_word) (c0 :: s0)))
      by exact (replace_hit 115%N [109; 116; 112]%N imap_word _).
    rewrite Hhit in H. unfold imap_word in H at 1. cbn [app] in H.
    rewrite starts_with_cons in H.
    apply andb_true_iff in H as [H _]. apply N.eqb_eq in H. contradiction.
  - rewrite (@replace_keep smtp_word imap_word c0 s0 M) in H.
    rewrite starts_with_cons in H |- *.
    apply andb_true_iff in H as [H1 H2].
    rewrite H1. cbn. now apply IH.
Qed.

Lemma replaced_never_starts_with_smtp (s : str) :
  starts_with smtp_word (replace smtp_word imap_word s) = false.
Proof.
  destruct s as [|c0 s0]; [reflexivity|].
  destruct (starts_with smtp_word (c0 :: s0)) eqn:M.
  - apply starts_with_split in M. rewrite M.
    assert (Hhit :
              replace smtp_word imap_word
                (smtp_word ++ skipn (List.length smtp_word) (c0 :: s0))
              = imap_word
                  ++ replace smtp_word imap_word
                       (skipn (List.length smtp_word) (c0 :: s0)))
      by exact (replace_hit 115%N [109; 116; 112]%N imap_word _).
    rewrite Hhit. reflexivity.
  - rewrite (@replace_keep smtp_word imap_word c0 s0 M).
    destruct (starts_with smtp_word (c0 :: replace smtp_word imap_word s0))
      eqn:E; [|reflexivity].
    exfalso. unfold smtp_word in E at 1. rewrite starts_with_cons in E.
    apply andb_true_iff in E as [E1 E2].
    assert (K : starts_with [109; 116; 112]%N s0 = true).
    { apply kept_prefix; [|exact E2].
      repeat constructor; discriminate. }
    unfold smtp_word in M at 1. rewrite starts_with_cons in M.
    rewrite E1, K in M. discriminate.
Qed.

Lemma replaced_facts :
  forall n s,
    List.length s <= n ->
    contains smtp_word (replace smtp_word imap_word s) = false
    /\ List.length (replace smtp_word imap_word s) = List.length s.
Proof.
  induction n as [|n IH]; intros s Hn.
  - destruct s; [split; reflexivity|cbn in Hn; lia].
  - destruct s as [|c0 s0]; [split; reflexivity|].
    destruct (starts_with smtp_word (c0 :: s0)) eqn:M.
    + apply starts_with_split in M.
      remember (skipn (List.length smtp_word) (c0 :: s0)) as rest eqn:Hrest.
      assert (Hlen : List.length rest <= n).
      { subst rest. rewrite length_skipn. cbn in Hn |- *. lia. }
      destruct (IH _ Hlen) as [Hc Hl].
      assert (Hhit : replace smtp_word imap_word (smtp_word ++ rest)
                     = imap_word ++ replace smtp_word imap_word rest)
        by exact (replace_hit 115%N [109; 116; 112]%N imap_word rest).
      rewrite M, Hhit.
      split.
      * unfold imap_word at 1. cbn [app]. rewrite !contains_cons, Hc. reflexivity.
      * rewrite !length_app, Hl. reflexivity.
    + rewrite (@replace_keep smtp_word imap_word c0 s0 M).
      assert (Hlen : List.length s0 <= n) by (cbn in Hn; lia).
      destruct (IH _ Hlen) as [Hc Hl].
      split.
      * rewrite contains_cons, Hc, orb_false_r.
        rewrite <- (@replace_keep smtp_word imap_word c0 s0 M).
        apply replaced_never_starts_with_smtp.
      * cbn. now rewrite Hl.
Qed.

End ImapHost.

(** The first call of the IMAP leg. *)
Lemma connect_imap_first_call (w : World) (self : EmailSender) (h : list event) :
  exists rest,
    fst (fst (_connect_imap w self h))
    = imaplib_IMAP4_SSL (replace (lit "smtp") (lit "imap") (url self)) 993
      :: rest.
Proof.
  unfold _connect_imap, try_except, bind, get, call, log, ret, raise.
  cbn.
  destruct (raises w (h ++ []) _); cbn; [eexists; reflexivity|].
  destruct (raises w _ _); cbn; eexists; reflexivity.
Qed.

(** X5.  The host the IMAP leg connects to, always on port 993, never
    contains "smtp" and is as long as the SMTP host name. *)
Theorem imap_host_is_free_of_smtp
    (w : World) (self : EmailSender) (h : list event) :
  exists host rest,
    fst (fst (_connect_imap w self h)) = imaplib_IMAP4_SSL host 993 :: rest
    /\ contains (lit "smtp") host = false
    /\ List.length host = List.length (url self).
Proof.
  destruct (connect_imap_first_call w self h) as [rest Hr].
  eexists. exists rest. split; [exact Hr|].
  exact (replaced_facts (url self) (le_n _)).
Qed.

(** X6.  For an SMTP host name without "smtp" the IMAP leg connects to the
    very same host. *)
Theorem imap_host_unchanged_without_smtp
    (w : World) (self : EmailSender) (h : list event) :
  contains (lit "smtp") (url self) = false ->
  exists rest,
    fst (fst (_connect_imap w self h)) = imaplib_IMAP4_SSL (url self) 993 :: rest.
Proof.
  intros H.
  destruct (connect_imap_first_call w self h) as [rest Hr].
  exists rest. rewrite Hr. do 2 f_equal.
  exact (@replace_no_occurrence 115%N [109; 116; 112]%N (lit "imap") (url self) H).
Qed.

Lemma imap_host_unchanged_without_smtp_witness :
  exists rest,
    fst (fst (_connect_imap Sample.calm
                {| url := lit "mail.example.com"; port := 465;
                   login := Sample.user; password := Sample.secret;
                   self_signature_path := None; server := None;
                   imap := None |} []))
    = imaplib_IMAP4_SSL (lit "mail.example.com") 993 :: rest.
Proof.
  exact (@imap_host_unchanged_without_smtp Sample.calm
           {| url := lit "mail.example.com"; port := 465;
              login := Sample.user; password := Sample.secret;
              self_signature_path := None; server := None; imap := None |}
           [] eq_refl).
Defined.

(* ------------------------------------------------------------------ *)
(** ** Further properties: construction *)

(** As [run_calls], keeping what was learnt about each exception. *)
Ltac run_calls_eqn w :=
  repeat (match goal with
          | |- context [isinstance ?e ?c || isinstance ?e ?d] =>
              let I := fresh "I" in
              destruct (isinstance e c || isinstance e d) eqn:I
          | |- context [raises w ?h ?ev] =>
              let E := fresh "E" in destruct (raises w h ev) eqn:E
          end; cbn).

(** As [enum_splits], for a cut at an element of a given shape: the
    equation between this element and the one of the list is kept. *)
Ltac enum_splits_eq H :=
  lazymatch type of H with
  | [] = _ ++ _ :: _ =>
      exfalso; exact (app_cons_not_nil _ _ _ H)
  | _ :: _ = _ ++ _ :: _ =>
      apply split_cons_inv in H;
      let a' := fresh "a" in
      let Hev := fresh "Hev" in
      destruct H as [(-> & Hev & ->) | (a' & -> & H)];
      [ try discriminate Hev | enum_splits_eq H]
  end.

(** X7.  The constructor stops at the first call that raises: no event
    follows it, and the [ConnectionError] raised carries the exception [e0]
    of that call as its cause and [str(e0)] at the end of its message, after
    a text that names the leg and, for the SMTP leg, tells an
    [SMTPException] or [ValueError] from any other exception. *)
Theorem construction_fault_is_chained
    (w : World) (url : str) (port : Z) (login password : str)
    (signature_path : option str) (h : list event) :
  let '(events, r) :=
    EmailSender_new w url port login password signature_path h in
  forall before ev after e0,
    events = before ++ ev :: after ->
    is_protocol ev = true ->
    raises w (h ++ before) ev = Some e0 ->
    after = []
    /\ r = Raise
             (ExnFrom ConnectionError
                ((if is_imap_connect ev
                  then lit "Falha ao conectar ao servidor IMAP: "
                  else if isinstance e0 SMTPException || isinstance e0 ValueError
                       then lit "Falha ao conectar ao servidor SMTP: "
                       else lit "Erro inesperado ao conectar ao servidor SMTP: ")
                   ++ str_of e0)
                e0).
Proof.
  unfold_new.
  destruct (Z.eqb_spec port 587) as [->|N1];
    [|destruct (Z.eqb_spec port 465) as [->|N2]];
    cbn; run_calls_eqn w; norm_hist;
    intros before ev after e0 Hsplit Hp Hfault;
    enum_splits Hsplit; cbn in Hp; try discriminate Hp;
    norm_hist;
    first
      [ congruence
      | split; [reflexivity|]; cbn [is_imap_connect];
        match goal with
        | E : raises w ?hh ?x = Some ?e, F : raises w ?hh ?x = Some e0 |- _ =>
            rewrite E in F; injection F as <-
        end;
        rewrite ?I; reflexivity ].
Qed.

Lemma construction_fault_is_chained_witness :
  snd (EmailSender_new
         (Sample.world is_smtp_transport Sample.gmail_boxes true true)
         Sample.host 587 Sample.user Sample.secret None [])
  = Raise
      (ExnFrom ConnectionError
         (lit "Erro inesperado ao conectar ao servidor SMTP: "
            ++ lit "connection reset")
         Sample.fault).
Proof.
  pose proof (@construction_fault_is_chained
                (Sample.world is_smtp_transport Sample.gmail_boxes true true)
                Sample.host 587 Sample.user Sample.secret None []) as H.
  destruct (EmailSender_new _ _ _ _ _ _ _) as [events r] eqn:E in H |- *.
  vm_compute in E. injection E as <- <-.
  exact (proj2 (H [] (smtplib_SMTP Sample.host 587) [] Sample.fault
                  eq_refl eq_refl eq_refl)).
Defined.

(** X8.  The constructor only connects and logs: each of its events is a
    call of the SMTP leg, a call of the IMAP leg or a log line.  Neither
    [quit] nor [logout] is called, also when the IMAP leg fails after the
    SMTP session has been opened. *)
Theorem construction_never_tears_down
    (w : World) (url : str) (port : Z) (login password : str)
    (signature_path : option str) (h : list event) :
  let events :=
    fst (EmailSender_new w url port login password signature_path h) in
  Forall (fun ev => is_smtp_transport ev || is_imap_connect ev || is_logger ev
                    = true) events
  /\ count is_quit events = 0
  /\ count is_logout events = 0.
Proof.
  unfold_new.
  destruct (Z.eqb_spec port 587) as [->|N1];
    [|destruct (Z.eqb_spec port 465) as [->|N2]];
    cbn; run_calls w;
    (split; [repeat constructor | split; reflexivity]).
Qed.

(** X9.  With port 587 the login is sent only after STARTTLS has been
    called and has returned. *)
Theorem credentials_follow_starttls
    (w : World) (url login password : str) (signature_path : option str)
    (h : list event) :
  let events :=
    fst (EmailSender_new w url 587 login password signature_path h) in
  forall before user secret after,
    events = before ++ smtp_login user secret :: after ->
    exists b1 b2,
      before = b1 ++ starttls :: b2
      /\ raises w (h ++ b1) starttls = None.
Proof.
  unfold_new. cbn. run_calls w; norm_hist;
    intros before user secret after Hsplit;
    enum_splits_eq Hsplit;
    (eexists [_], []; split; [reflexivity|assumption]).
Qed.

Lemma credentials_follow_starttls_witness :
  exists b1 b2,
    [smtplib_SMTP Sample.host 587; starttls] = b1 ++ starttls :: b2
    /\ raises Sample.calm ([] ++ b1) starttls = None.
Proof.
  exact (@credentials_follow_starttls Sample.calm Sample.host Sample.user
           Sample.secret None []
           [smtplib_SMTP Sample.host 587; starttls] Sample.user Sample.secret
           [logger INFO (lit "Conectado ao servidor SMTP com sucesso.");
            imaplib_IMAP4_SSL (lit "imap.example.com") 993;
            imap_login Sample.user Sample.secret;
            logger INFO (lit "Conectado ao servidor IMAP com sucesso.");
            logger INFO (lit "Usando o email: " ++ Sample.user)]
           eq_refl).
Defined.

(** X10.  The IMAP leg starts only when the SMTP leg is through: before a
    call of the IMAP leg the SMTP login has been made, and every call made
    before it has returned. *)
Theorem imap_leg_follows_smtp_leg
    (w : World) (url : str) (port : Z) (login password : str)
    (signature_path : option str) (h : list event) :
  let events :=
    fst (EmailSender_new w url port login password signature_path h) in
  forall before ev after,
    events = before ++ ev :: after ->
    is_imap_connect ev = true ->
    In (smtp_login login password) before /\ returned w h before.
Proof.
  unfold_new.
  destruct (Z.eqb_spec port 587) as [->|N1];
    [|destruct (Z.eqb_spec port 465) as [->|N2]];
    cbn; run_calls w; norm_hist;
    intros before ev after Hsplit Hi;
    enum_splits Hsplit; cbn in Hi; try discriminate Hi;
    (split; [cbn; intuition
            | cbn; norm_hist; intuition (try discriminate; assumption)]).
Qed.

Lemma imap_leg_follows_smtp_leg_witness :
  In (smtp_login Sample.user Sample.secret)
    [smtplib_SMTP_SSL Sample.host 465; smtp_login Sample.user Sample.secret;
     logger INFO (lit "Conectado ao servidor SMTP com sucesso.")]
  /\ returned Sample.calm []
       [smtplib_SMTP_SSL Sample.host 465; smtp_login Sample.user Sample.secret;
        logger INFO (lit "Conectado ao servidor SMTP com sucesso.")].
Proof.
  exact (@imap_leg_follows_smtp_leg Sample.calm Sample.host 465 Sample.user
           Sample.secret None []
           [smtplib_SMTP_SSL Sample.host 465;
            smtp_login Sample.user Sample.secret;
            logger INFO (lit "Conectado ao servidor SMTP com sucesso.")]
           (imaplib_IMAP4_SSL (lit "imap.example.com") 993)
           [imap_login Sample.user Sample.secret;
            logger INFO (lit "Conectado ao servidor IMAP com sucesso.");
            logger INFO (lit "Usando o email: " ++ Sample.user)]
           eq_refl eq_refl).
Defined.

(** X11.  An object the constructor returns has port 587 or 465, holds the
    arguments it was built from, and has the plain SMTP handle for 587 and
    the TLS-wrapped one for 465, both on the given host. *)
Theorem constructed_object
    (w : World) (host : str) (p : Z) (user secret : str)
    (signature : option str) (h : list event) :
  match snd (EmailSender_new w host p user secret signature h) with
  | Return self =>
      (p = 587%Z \/ p = 465%Z)
      /\ url self = host
      /\ port self = p
      /\ login self = user
      /\ password self = secret
      /\ self_signature_path self = signature
      /\ server self
         = Some (if (p =? 587)%Z then SMTP host p else SMTP_SSL host p)
  | Raise _ => True
  end.
Proof.
  unfold_new.
  destruct (Z.eqb_spec p 587) as [->|N1];
    [|destruct (Z.eqb_spec p 465) as [->|N2]];
    cbn; run_calls w; try exact I; repeat split; auto.
Qed.

(* ------------------------------------------------------------------ *)
(** ** Further properties: UTF-8 *)

Section Utf8.

#[local] Ltac Zify.zify_post_hook ::= Z.to_euclidean_division_equations.

Lemma to_N_byte_of (n : N) : (n <= 255)%N -> Byte.to_N (byte_of n) = n.
Proof.
  intros H. unfold byte_of.
  destruct (Byte.of_N n) as [b|] eqn:E.
  - now apply Byte.to_of_N.
  - apply Byte.of_N_None_iff in E. lia.
Qed.

(** Proves the value of a test of the decoder from the bounds at hand. *)
Ltac solve_test :=
  unfold cont;
  rewrite ?andb_true_iff, ?andb_false_iff, ?negb_true_iff, ?negb_false_iff,
    ?andb_true_iff, ?andb_false_iff,
    ?N.ltb_lt, ?N.leb_le, ?N.eqb_eq, ?N.ltb_ge, ?N.leb_gt, ?N.eqb_neq;
  lia.

(** Settles the test the decoder is waiting for, as long as there is one. *)
Ltac settle_tests :=
  repeat (match goal with
          | |- (if ?b then _ else _) = _ =>
              first [ replace b with true by (symmetry; solve_test)
                    | replace b with false by (symmetry; solve_test) ]
          end; cbv iota).

Lemma decode_one (c : char) (r : list N) :
  (c < 128)%N ->
  utf8_decode_N (c :: r) = option_map (cons c) (utf8_decode_N r).
Proof.
  intros H. cbn [utf8_decode_N]. settle_tests. reflexivity.
Qed.

Lemma decode_two (c : char) (r : list N) :
  (128 <= c < 2048)%N ->
  utf8_decode_N ((192 + c / 64) :: (128 + c mod 64) :: r)%N
  = option_map (cons c) (utf8_decode_N r).
Proof.
  intros H. cbn [utf8_decode_N]. settle_tests.
  unfold low6. do 2 f_equal. lia.
Qed.

Lemma decode_three (c : char) (r : list N) :
  (2048 <= c < 65536)%N ->
  ~ (55296 <= c <= 57343)%N ->
  utf8_decode_N
    ((224 + c / 4096) :: (128 + (c / 64) mod 64) :: (128 + c mod 64) :: r)%N
  = option_map (cons c) (utf8_decode_N r).
Proof.
  intros H S. cbn [utf8_decode_N]. settle_tests.
  unfold low6. do 2 f_equal. lia.
Qed.

Lemma decode_four (c : char) (r : list N) :
  (65536 <= c < 1114112)%N ->
  utf8_decode_N
    ((240 + c / 262144) :: (128 + (c / 4096) mod 64)
       :: (128 + (c / 64) mod 64) :: (128 + c mod 64) :: r)%N
  = option_map (cons c) (utf8_decode_N r).
Proof.
  intros H. cbn [utf8_decode_N]. settle_tests.
  unfold low6. do 2 f_equal. lia.
Qed.

Lemma some_eq (A : Type) (a b : A) : Some a = Some b -> a = b.
Proof. congruence. Qed.

Lemma decode_encoded_char (c : char) (bc : bytes) (r : list N) :
  utf8_encode_char c = Some bc ->
  utf8_decode_N (List.map Byte.to_N bc ++ r)
  = option_map (cons c) (utf8_decode_N r).
Proof.
  unfold utf8_encode_char.
  destruct (N.ltb_spec c 128);
    [|destruct (N.ltb_spec c 2048);
      [|destruct (N.ltb_spec c 65536);
        [destruct (N.leb_spec 55296 c); [destruct (N.leb_spec c 57343)|]
        |destruct (N.ltb_spec c 1114112)]]];
    cbn [andb]; intros E; try discriminate E; apply some_eq in E; subst bc;
    cbn [List.map app]; rewrite !to_N_byte_of by lia.
  - now apply decode_one.
  - apply decode_two. lia.
  - apply decode_three; lia.
  - apply decode_three; lia.
  - apply decode_four. lia.
Qed.

(** What [encode] produces, [decode] reads back. *)
Lemma decode_encode (s : str) :
  forall b, encode s = Some b -> decode b = Some s.
Proof.
  induction s as [|c s IH]; intros b E; cbn [encode] in E.
  - injection E as <-. reflexivity.
  - destruct (utf8_encode_char c) as [bc|] eqn:Ec; [|discriminate].
    destruct (encode s) as [bs|]; [|discriminate].
    injection E as <-. unfold decode. rewrite map_app.
    rewrite (@decode_encoded_char c bc _ Ec).
    specialize (IH bs eq_refl). unfold decode in IH. now rewrite IH.
Qed.

End Utf8.

(* ------------------------------------------------------------------ *)
(** ** Further properties: teardown *)

(** X12.  [close_connection] treats the two legs apart: [logout] is called
    exactly when the IMAP handle is there, whatever [quit] did, and [quit]
    exactly when the SMTP handle is there with a live socket; nothing else
    is called but the logger. *)
Theorem close_attempts_each_leg
    (w : World) (self : EmailSender) (h : list event) :
  let events := fst (fst (close_connection w self h)) in
  count is_quit events
  = match server self with
    | Some _ => if sock w h then 1 else 0
    | None => 0
    end
  /\ count is_logout events
     = match imap self with Some _ => 1 | None => 0 end
  /\ Forall (fun ev => is_quit ev || is_logout ev || is_logger ev = true) events.
Proof.
  destruct self as [u p l pw sg [s|] [i|]];
    unfold_close; cbn; rewrite ?app_nil_r;
    try (destruct (sock w h) eqn:Hsock; cbn);
    run_calls w;
    (split; [reflexivity|]); (split; [reflexivity|]); repeat constructor.
Qed.

(** X13.  A [quit] or [logout] that raises is followed at once by a log
    line at level EXCEPTION that names the leg and ends with the text of
    the exception. *)
Theorem close_logs_failures
    (w : World) (self : EmailSender) (h : list event) :
  let events := fst (fst (close_connection w self h)) in
  forall before ev after exc,
    events = before ++ ev :: after ->
    is_protocol ev = true ->
    raises w (h ++ before) ev = Some exc ->
    exists rest,
      after
      = logger EXCEPTION
          (lit "Erro ao encerrar conex" ++ [227%N]
             ++ (if is_quit ev then lit "o SMTP: " else lit "o IMAP: ")
             ++ str_of exc)
        :: rest.
Proof.
  destruct self as [u p l pw sg [s|] [i|]];
    unfold_close; cbn; rewrite ?app_nil_r;
    try (destruct (sock w h) eqn:Hsock; cbn);
    run_calls_eqn w; norm_hist;
    intros before ev after exc Hsplit Hp Hfault;
    enum_splits Hsplit; cbn in Hp; try discriminate Hp;
    norm_hist;
    first
      [ congruence
      | match goal with
        | E : raises w ?hh ?x = Some ?e, F : raises w ?hh ?x = Some exc |- _ =>
            rewrite E in F; injection F as <-
        end;
        eexists; reflexivity ].
Qed.

Lemma close_logs_failures_witness :
  exists rest,
    [logger EXCEPTION
       (lit "Erro ao encerrar conex" ++ [227%N] ++ lit "o SMTP: "
          ++ lit "connection reset");
     logout;
     logger INFO (lit "Conex" ++ [227%N] ++ lit "o IMAP encerrada.")]
    = logger EXCEPTION
        (lit "Erro ao encerrar conex" ++ [227%N] ++ lit "o SMTP: "
           ++ str_of Sample.fault)
      :: rest.
Proof.
  exact (@close_logs_failures
           (Sample.world is_quit Sample.gmail_boxes true true)
           Sample.connected [] [] quit
           [logger EXCEPTION
              (lit "Erro ao encerrar conex" ++ [227%N] ++ lit "o SMTP: "
                 ++ lit "connection reset");
            logout;
            logger INFO (lit "Conex" ++ [227%N] ++ lit "o IMAP encerrada.")]
           Sample.fault eq_refl eq_refl eq_refl).
Defined.

(* ------------------------------------------------------------------ *)
(** ** Further properties: sending *)

(** X14.  [send] stops at the first call that raises: the only event after
    it is the log line of the failure, and the error message of the result
    is "Erro ao enviar e-mail para <recipient>: <text of the exception>". *)
Theorem send_stops_at_first_fault
    (w : World) (lower : str -> str) (self : EmailSender) (h : list event)
    (subj text rcpt : str) (cc path : option str) (email : Email) :
  build_email w h (builder_args self subj text rcpt cc path) = Return email ->
  let '(events, _, r) := send w lower subj text rcpt cc path self h in
  forall before ev after exc,
    events = before ++ ev :: after ->
    is_protocol ev = true ->
    raises w (h ++ before) ev = Some exc ->
    after = [logger EXCEPTION (send_error rcpt exc)]
    /\ r = Return (SMTPResponse_new false email (Some (send_error rcpt exc))
                     (Some 500%Z)).
Proof.
  intros Hb.
  destruct self as [u p l pw sg [s|] [i|]];
    unfold_send; cbn; rewrite !app_nil_r, Hb; cbn;
    run_send w lower; norm_hist;
    intros before ev after exc Hsplit Hp Hfault;
    enum_splits Hsplit; cbn in Hp; try discriminate Hp;
    norm_hist;
    first
      [ congruence
      | match goal with
        | E : raises w ?hh ?x = Some ?e, F : raises w ?hh ?x = Some exc |- _ =>
            rewrite E in F; injection F as <-
        end;
        split; reflexivity ].
Qed.

Lemma send_stops_at_first_fault_witness :
  snd (send (Sample.world is_list Sample.gmail_boxes true true)
         ascii_lower (lit "Hi") (lit "text") Sample.dest None None
         Sample.connected [])
  = Return
      (SMTPResponse_new false
         (Sample.email_of
            (builder_args Sample.connected (lit "Hi") (lit "text")
               Sample.dest None None))
         (Some (send_error Sample.dest Sample.fault)) (Some 500%Z)).
Proof.
  pose proof (@send_stops_at_first_fault
                (Sample.world is_list Sample.gmail_boxes true true)
                ascii_lower Sample.connected [] (lit "Hi") (lit "text")
                Sample.dest None None
                (Sample.email_of
                   (builder_args Sample.connected (lit "Hi") (lit "text")
                      Sample.dest None None))
                eq_refl) as H.
  destruct (send _ _ _ _ _ _ _ _ _) as [[events self'] r] eqn:E in H |- *.
  vm_compute in E. injection E as <- _ <-.
  exact (proj2
    (H [logger INFO (lit "Enviando e-mail " ++ dq ++ lit "Hi" ++ dq);
        sendmail Sample.user [Sample.dest]
          (lit "Subject: Hi" ++ [10%N; 10%N] ++ lit "text");
        logger INFO (lit "E-mail enviado com sucesso")]
       imap_list
       [logger EXCEPTION (send_error Sample.dest Sample.fault)]
       Sample.fault eq_refl eq_refl eq_refl)).
Defined.

(** X15.  A message can have gone out although [send] reports failure: when
    the [list] or the [append] call raises, the result has
    [success = false], and [sendmail] had been called before and had
    returned. *)
Theorem send_failure_after_transmit
    (w : World) (lower : str -> str) (self : EmailSender) (h : list event)
    (subj text rcpt : str) (cc path : option str) :
  let '(events, _, r) := send w lower subj text rcpt cc path self h in
  forall before ev after,
    events = before ++ ev :: after ->
    is_list ev || is_append ev = true ->
    raises w (h ++ before) ev <> None ->
    (exists resp, r = Return resp /\ success resp = false)
    /\ exists b1 sm b2,
         before = b1 ++ sm :: b2
         /\ is_sendmail sm = true
         /\ raises w (h ++ b1) sm = None.
Proof.
  destruct self as [u p l pw sg [s|] [i|]];
    unfold_send; cbn; rewrite !app_nil_r;
    (destruct (build_email w h _) as [email|e] eqn:Hb); cbn;
    run_send w lower; norm_hist;
    intros before ev after Hsplit Hk Hfault;
    enum_splits Hsplit; cbn in Hk; try discriminate Hk;
    norm_hist;
    first
      [ congruence
      | split;
        [ eexists; split; reflexivity
        | eexists [_], _, _; split; [reflexivity|];
          split; [reflexivity|assumption] ] ].
Qed.

Lemma send_failure_after_transmit_witness :
  exists resp,
    snd (send (Sample.world is_append Sample.gmail_boxes true true)
           ascii_lower (lit "Hi") (lit "text") Sample.dest None None
           Sample.connected [])
    = Return resp
    /\ success resp = false.
Proof.
  pose proof (@send_failure_after_transmit
                (Sample.world is_append Sample.gmail_boxes true true)
                ascii_lower Sample.connected [] (lit "Hi") (lit "text")
                Sample.dest None None) as H.
  destruct (send _ _ _ _ _ _ _ _ _) as [[events self'] r] eqn:E in H |- *.
  vm_compute in E. injection E as <- _ _.
  exact (proj1
    (H [logger INFO (lit "Enviando e-mail " ++ dq ++ lit "Hi" ++ dq);
        sendmail Sample.user [Sample.dest]
          (lit "Subject: Hi" ++ [10%N; 10%N] ++ lit "text");
        logger INFO (lit "E-mail enviado com sucesso");
        imap_list;
        logger INFO
          (lit "Salvando e-mail em " ++ dq ++ lit "[Gmail]/Sent Mail" ++ dq)]
       (imap_append (Some (dq ++ lit "[Gmail]/Sent Mail" ++ dq)) []
          (dq ++ lit "03-Nov-2026 10:00:00 +0000" ++ dq)
          (Sample.bytes_lit "Subject: Hi" ++ [x0a; x0a]
             ++ Sample.bytes_lit "text"))
       [logger EXCEPTION
          (lit "Erro ao enviar e-mail para " ++ Sample.dest ++ lit ": "
             ++ lit "connection reset")]
       eq_refl eq_refl ltac:(discriminate))).
Defined.

(** X16.  [send] only logs, transmits, lists and appends: it opens no
    connection and closes none, and it leaves the object as it was. *)
Theorem send_only_transmits_and_archives
    (w : World) (lower : str -> str) (self : EmailSender) (h : list event)
    (subj text rcpt : str) (cc path : option str) :
  let '(events, self', _) := send w lower subj text rcpt cc path self h in
  self' = self
  /\ Forall (fun ev => is_logger ev || is_sendmail ev || is_list ev
                       || is_append ev = true) events.
Proof.
  destruct self as [u p l pw sg [s|] [i|]];
    unfold_send; cbn; rewrite !app_nil_r;
    (destruct (build_email w h _) as [email|e] eqn:Hb); cbn;
    run_send w lower; (split; [reflexivity|repeat constructor]).
Qed.

(** As [run_send], keeping the listing that was read. *)
Ltac run_send_eqn w lower :=
  repeat (match goal with
          | |- context [raises w ?h ?ev] =>
              let E := fresh "E" in destruct (raises w h ev) eqn:E
          | |- context [list_response w ?h] =>
              let status := fresh "status" in
              let mailboxes := fresh "mailboxes" in
              let L := fresh "L" in
              destruct (list_response w h) as [status mailboxes] eqn:L
          | |- context [mailbox_loop w lower ?l ?o] =>
              let F := fresh "F" in destruct (mailbox_loop w lower l o) eqn:F
          | |- context [encode ?m] =>
              let C := fresh "C" in destruct (encode m) eqn:C
          end; cbn).

(** X17.  When [send] reports success, its events are the seven of the
    straight path, every call returned, and the pieces fit: [sendmail] got
    the login, the recipient list and the message of the builder; [append]
    got the folder that the loop over the listing returned, empty flags and
    the UTF-8 bytes of that same message. *)
Theorem send_success_run
    (w : World) (lower : str -> str) (self : EmailSender) (h : list event)
    (subj text rcpt : str) (cc path : option str)
    (events : list event) (self' : EmailSender) (resp : SMTPResponse) :
  send w lower subj text rcpt cc path self h = (events, self', Return resp) ->
  success resp = true ->
  exists email folder date_time message,
    build_email w h (builder_args self subj text rcpt cc path) = Return email
    /\ resp = SMTPResponse_new true email None None
    /\ (let before_list :=
          [logger INFO (lit "Enviando e-mail " ++ dq ++ subj ++ dq);
           sendmail (login self) (recipients email) (msg email);
           logger INFO (lit "E-mail enviado com sucesso")] in
        events
        = before_list
            ++ [imap_list;
                logger INFO (lit "Salvando e-mail em " ++ format_opt folder);
                imap_append folder [] date_time message;
                logger INFO (lit "E-mail salvo com sucesso")]
        /\ mailbox_loop w lower
             (snd (list_response w (h ++ before_list ++ [imap_list]))) None
           = Return folder)
    /\ encode (msg email) = Some message
    /\ returned w h events.
Proof.
  revert events self' resp.
  destruct self as [u p l pw sg [s|] [i|]];
    unfold_send; cbn; rewrite !app_nil_r;
    (destruct (build_email w h _) as [email|e] eqn:Hb); cbn;
    run_send_eqn w lower; norm_hist;
    intros events self' resp Hrun Hs;
    try discriminate Hrun;
    injection Hrun as <- <- <-;
    try discriminate Hs;
    eexists _, _, _, _;
    (split; [reflexivity|]); (split; [reflexivity|]);
    (split;
     [ cbn; split; [reflexivity|];
       match goal with
       | L : list_response w _ = _ |- _ => rewrite L
       end; eassumption
     | split; [eassumption|];
       cbn; norm_hist; intuition (try discriminate; assumption) ]).
Qed.

Lemma send_success_run_witness :
  exists email folder date_time message,
    build_email Sample.calm []
      (builder_args Sample.connected (lit "Hi") (lit "text") Sample.dest
         None None)
    = Return email
    /\ encode (msg email) = Some message
    /\ In (imap_append folder [] date_time message)
         (fst (fst (send Sample.calm ascii_lower (lit "Hi") (lit "text")
                      Sample.dest None None Sample.connected []))).
Proof.
  destruct (send Sample.calm ascii_lower (lit "Hi") (lit "text") Sample.dest
              None None Sample.connected [])
    as [[events self'] r] eqn:E.
  assert (Hr : exists resp, r = Return resp /\ success resp = true).
  { vm_compute in E. injection E as _ _ <-. eexists. split; reflexivity. }
  destruct Hr as (resp & -> & Hs).
  destruct (@send_success_run Sample.calm ascii_lower Sample.connected []
              (lit "Hi") (lit "text") Sample.dest None None
              events self' resp E Hs)
    as (email & folder & date_time & message & Hb & _ & [He _] & Hc & _).
  exists email, folder, date_time, message.
  split; [exact Hb|]. split; [exact Hc|].
  cbn [fst]. rewrite He. apply in_or_app. right. right. right. left.
  reflexivity.
Defined.

(** X18.  The bytes handed to [append] are the message handed to
    [sendmail], in UTF-8: they decode to that very text. *)
Theorem archived_copy_is_the_message
    (w : World) (lower : str -> str) (self : EmailSender) (h : list event)
    (subj text rcpt : str) (cc path : option str) :
  let '(events, _, _) := send w lower subj text rcpt cc path self h in
  forall folder flags date_time message,
    In (imap_append folder flags date_time message) events ->
    exists from_addr to_addrs text_sent,
      In (sendmail from_addr to_addrs text_sent) events
      /\ encode text_sent = Some message
      /\ decode message = Some text_sent.
Proof.
  destruct self as [u p l pw sg [s|] [i|]];
    unfold_send; cbn; rewrite !app_nil_r;
    (destruct (build_email w h _) as [email|e] eqn:Hb); cbn;
    run_send w lower;
    intros folder flags date_time message Hin; cbn in Hin;
    repeat (destruct Hin as [Hin|Hin]; [try discriminate Hin|]);
    try contradiction;
    injection Hin as <- <- <- <-;
    (eexists _, _, _; split; [right; left; reflexivity|];
     split; [eassumption|apply decode_encode; assumption]).
Qed.

Lemma archived_copy_is_the_message_witness :
  exists from_addr to_addrs text_sent,
    In (sendmail from_addr to_addrs text_sent)
      (fst (fst (send Sample.calm ascii_lower (lit "Ol" ++ [225%N])
                   (lit "text") Sample.dest None None Sample.connected [])))
    /\ encode text_sent
       = Some (Sample.bytes_lit "Subject: Ol" ++ [xc3; xa1; x0a; x0a]
                 ++ Sample.bytes_lit "text")
    /\ decode (Sample.bytes_lit "Subject: Ol" ++ [xc3; xa1; x0a; x0a]
                 ++ Sample.bytes_lit "text")
       = Some text_sent.
Proof.
  pose proof (@archived_copy_is_the_message Sample.calm ascii_lower
                Sample.connected [] (lit "Ol" ++ [225%N]) (lit "text")
                Sample.dest None None) as H.
  destruct (send _ _ _ _ _ _ _ _ _) as [[events self'] r] eqn:E in H |- *.
  vm_compute in E. injection E as <- _ _.
  apply (H (Some (dq ++ lit "[Gmail]/Sent Mail" ++ dq)) []
           (dq ++ lit "03-Nov-2026 10:00:00 +0000" ++ dq)).
  do 5 right. left. reflexivity.
Defined.

Lemma mailbox_loop_without_sent (w : World) (lower : str -> str)
    (mailboxes : list entry) :
  Forall (not_a_sent_entry lower) mailboxes ->
  mailbox_loop w lower mailboxes None = Return None.
Proof.
  induction 1 as [|mailbox rest (line & name & -> & Hd & Hc) _ IH];
    [reflexivity|].
  now rewrite (@mailbox_loop_miss w lower line name rest Hd Hc).
Qed.

Lemma mailbox_loop_bad_entry (w : World) (lower : str -> str)
    (pre : list entry) (bad : entry) (post : list entry) (exc : exn) :
  Forall (not_a_sent_entry lower) pre ->
  entry_decode w bad = Raise exc ->
  mailbox_loop w lower (pre ++ bad :: post) None = Raise exc.
Proof.
  intros Hp Hb.
  induction Hp as [|mailbox rest (line & name & -> & Hd & Hc) _ IH].
  - cbn [app mailbox_loop]. now rewrite Hb.
  - cbn [app].
    now rewrite (@mailbox_loop_miss w lower line name (rest ++ bad :: post)
                   Hd Hc).
Qed.

(** Reads the listing of a world that always answers [list] alike. *)
Ltac read_listing w Hl :=
  match goal with
  | |- context [list_response w ?hh] =>
      let Hl' := fresh "Hl" in
      let status := fresh "status" in
      let listing := fresh "listing" in
      pose proof (Hl hh) as Hl';
      destruct (list_response w hh) as [status listing];
      cbn [snd] in Hl'; subst listing; cbn
  end.

(** X19.  On a connected object in a world without faults, when every
    entry of the listing is [bytes] that decode to a text without "sent"
    and the message can be encoded as UTF-8, [send] still appends: the
    mailbox argument is [None], the log line reads "Salvando e-mail em
    None", and the result reports success. *)
Theorem send_without_sent_folder_appends_to_None
    (w : World) (lower : str -> str) (self : EmailSender) (h : list event)
    (subj text rcpt : str) (cc path : option str) (email : Email)
    (smtp_handle : SMTP_handle) (imap_handle : IMAP_handle)
    (mailboxes : list entry) (message : bytes) :
  server self = Some smtp_handle ->
  imap self = Some imap_handle ->
  build_email w h (builder_args self subj text rcpt cc path) = Return email ->
  (forall h' ev, raises w h' ev = None) ->
  (forall h', snd (list_response w h') = mailboxes) ->
  Forall (not_a_sent_entry lower) mailboxes ->
  encode (msg email) = Some message ->
  exists date_time,
    send w lower subj text rcpt cc path self h
    = ([logger INFO (lit "Enviando e-mail " ++ dq ++ subj ++ dq);
        sendmail (login self) (recipients email) (msg email);
        logger INFO (lit "E-mail enviado com sucesso");
        imap_list;
        logger INFO (lit "Salvando e-mail em " ++ lit "None");
        imap_append None [] date_time message;
        logger INFO (lit "E-mail salvo com sucesso")],
       self, Return (SMTPResponse_new true email None None)).
Proof.
  intros Hs Hi Hb Hr Hl Hn Hc.
  unfold_send. rewrite Hs, Hi. cbn. rewrite !app_nil_r, Hb. cbn.
  rewrite !Hr. cbn. read_listing w Hl.
  rewrite (mailbox_loop_without_sent w Hn). cbn.
  rewrite Hc. cbn. rewrite !Hr. cbn.
  eexists. reflexivity.
Qed.

Lemma send_without_sent_folder_appends_to_None_witness :
  exists date_time,
    send (Sample.world (fun _ => false)
            [Sample.bytes_lit "INBOX"; Sample.bytes_lit "Trash"] true true)
      ascii_lower (lit "Hi") (lit "text") Sample.dest None None
      Sample.connected []
    = ([logger INFO (lit "Enviando e-mail " ++ dq ++ lit "Hi" ++ dq);
        sendmail Sample.user [Sample.dest]
          (lit "Subject: Hi" ++ [10%N; 10%N] ++ lit "text");
        logger INFO (lit "E-mail enviado com sucesso");
        imap_list;
        logger INFO (lit "Salvando e-mail em " ++ lit "None");
        imap_append None [] date_time
          (Sample.bytes_lit "Subject: Hi" ++ [x0a; x0a]
             ++ Sample.bytes_lit "text");
        logger INFO (lit "E-mail salvo com sucesso")],
       Sample.connected,
       Return
         (SMTPResponse_new true
            (Sample.email_of
               (builder_args Sample.connected (lit "Hi") (lit "text")
                  Sample.dest None None))
            None None)).
Proof.
  apply (@send_without_sent_folder_appends_to_None
           (Sample.world (fun _ => false)
              [Sample.bytes_lit "INBOX"; Sample.bytes_lit "Trash"] true true)
           ascii_lower Sample.connected [] (lit "Hi") (lit "text") Sample.dest
           None None
           (Sample.email_of
              (builder_args Sample.connected (lit "Hi") (lit "text")
                 Sample.dest None None))
           (SMTP Sample.host 587) (IMAP4_SSL (lit "imap.example.com") 993)
           [entry_bytes (Sample.bytes_lit "INBOX");
            entry_bytes (Sample.bytes_lit "Trash")]
           (Sample.bytes_lit "Subject: Hi" ++ [x0a; x0a]
              ++ Sample.bytes_lit "text"));
    try reflexivity.
  repeat constructor; eexists; eexists; repeat split; reflexivity.
Defined.

(** X20.  On a connected object in a world without faults, an entry of the
    listing on which [decode] raises ([bytes] that are not valid UTF-8,
    [None] or a pair), with no "sent" entry before it, makes [send] report
    failure after the message has gone out: [sendmail] and [list] are
    called, [append] is not, and the error message ends with the text of
    the exception that [decode] raised. *)
Theorem send_fails_on_undecodable_listing
    (w : World) (lower : str -> str) (self : EmailSender) (h : list event)
    (subj text rcpt : str) (cc path : option str) (email : Email)
    (smtp_handle : SMTP_handle) (imap_handle : IMAP_handle)
    (pre : list entry) (bad : entry) (post : list entry) (exc : exn) :
  server self = Some smtp_handle ->
  imap self = Some imap_handle ->
  build_email w h (builder_args self subj text rcpt cc path) = Return email ->
  (forall h' ev, raises w h' ev = None) ->
  (forall h', snd (list_response w h') = pre ++ bad :: post) ->
  Forall (not_a_sent_entry lower) pre ->
  entry_decode w bad = Raise exc ->
  send w lower subj text rcpt cc path self h
  = ([logger INFO (lit "Enviando e-mail " ++ dq ++ subj ++ dq);
      sendmail (login self) (recipients email) (msg email);
      logger INFO (lit "E-mail enviado com sucesso");
      imap_list;
      logger EXCEPTION
        (lit "Erro ao enviar e-mail para " ++ rcpt ++ lit ": " ++ str_of exc)],
     self,
     Return
       (SMTPResponse_new false email
          (Some (lit "Erro ao enviar e-mail para " ++ rcpt ++ lit ": "
                   ++ str_of exc))
          (Some 500%Z)))
  /\ (forall line,
        bad = entry_bytes line ->
        decode line = None
        /\ exc = Exn UnicodeDecodeError (decode_error_text w line))
  /\ (bad = entry_none \/ (exists hd lt, bad = entry_tuple hd lt) ->
      class_of exc = AttributeError).
Proof.
  intros Hs Hi Hb Hr Hl Hp Hd. split; [|split].
  - unfold_send. rewrite Hs, Hi. cbn. rewrite !app_nil_r, Hb. cbn.
    rewrite !Hr. cbn. read_listing w Hl.
    rewrite (@mailbox_loop_bad_entry w lower pre bad post exc Hp Hd).
    reflexivity.
  - intros line ->. cbn in Hd.
    destruct (decode line); [discriminate|].
    injection Hd as <-. split; reflexivity.
  - intros [->|(hd & lt & ->)]; cbn in Hd; injection Hd as <-; reflexivity.
Qed.

Lemma send_fails_on_undecodable_listing_witness :
  send (Sample.world (fun _ => false)
          [Sample.bytes_lit "INBOX"; [xff]; Sample.bytes_lit "Sent"] true true)
    ascii_lower (lit "Hi") (lit "text") Sample.dest None None
    Sample.connected []
  = ([logger INFO (lit "Enviando e-mail " ++ dq ++ lit "Hi" ++ dq);
      sendmail Sample.user [Sample.dest]
        (lit "Subject: Hi" ++ [10%N; 10%N] ++ lit "text");
      logger INFO (lit "E-mail enviado com sucesso");
      imap_list;
      logger EXCEPTION
        (lit "Erro ao enviar e-mail para " ++ Sample.dest ++ lit ": "
           ++ lit "'utf-8' codec can't decode byte 0xff in position 0: "
           ++ lit "invalid start byte")],
     Sample.connected,
     Return
       (SMTPResponse_new false
          (Sample.email_of
             (builder_args Sample.connected (lit "Hi") (lit "text")
                Sample.dest None None))
          (Some (lit "Erro ao enviar e-mail para " ++ Sample.dest ++ lit ": "
                   ++ lit "'utf-8' codec can't decode byte 0xff in position 0: "
                   ++ lit "invalid start byte"))
          (Some 500%Z))).
Proof.
  exact (proj1
    (@send_fails_on_undecodable_listing
       (Sample.world (fun _ => false)
          [Sample.bytes_lit "INBOX"; [xff]; Sample.bytes_lit "Sent"]
          true true)
       ascii_lower Sample.connected [] (lit "Hi") (lit "text") Sample.dest
       None None
       (Sample.email_of
          (builder_args Sample.connected (lit "Hi") (lit "text")
             Sample.dest None None))
       (SMTP Sample.host 587) (IMAP4_SSL (lit "imap.example.com") 993)
       [entry_bytes (Sample.bytes_lit "INBOX")] (entry_bytes [xff])
       [entry_bytes (Sample.bytes_lit "Sent")]
       (Exn UnicodeDecodeError (Sample.decode_text [xff]))
       eq_refl eq_refl eq_refl (fun _ _ => eq_refl) (fun _ => eq_refl)
       (Forall_cons _
          (ex_intro _ (Sample.bytes_lit "INBOX")
             (ex_intro _ (lit "INBOX") (conj eq_refl (conj eq_refl eq_refl))))
          (Forall_nil _))
       eq_refl)).
Defined.
